(** * Vigenere cipher engine (src/index.js): shallow embedding and properties

    The module exports one constructor, [Vigenere(options)], which closes
    over the caller's [options] object and a table [characterTypes] and
    returns an engine with two methods, [encode] and [decode].

    Modelling choices.
    - A JavaScript string is a sequence of code units; the model uses Rocq
      strings, one [ascii] per code unit (every built-in universe is ASCII).
    - Dynamically typed values are the fragment [jsval] below: undefined,
      null, booleans, strings and arrays.  Numbers only occur as results of
      [.length], [indexOf] and index arithmetic and are kept in [Z]; the
      remainder operator [%] is [Z.rem].
    - The options object is a finite map from property names to values; the
      constructor writes to it, so it returns the updated object next to
      its result, and the methods read the object as it is at call time.
    - [throw] is the [Throw] case of the result type. *)

From Stdlib Require Import ZArith String Ascii List Lia.
From stdpp Require Import gmap strings.

Local Open Scope Z_scope.

(** ** Values *)

#[warnings="-register-all"]
Inductive jsval : Type :=
| JUndefined
| JNull
| JBool (b : bool)
| JStr (s : string)
| JArr (l : list jsval).

(** Errors: [TypeError msg] is [throw new TypeError(msg)] in the source; the
    other two are the TypeErrors the runtime raises on a call of a property
    that is not a function and on a property read of undefined or null. *)
Inductive error : Type :=
| TypeError (msg : string)
| NotAFunction (callee : string)
| CannotRead (prop : string).

Inductive result (A : Type) : Type :=
| Ok (a : A)
| Throw (e : error).
Arguments Ok {A} a.
Arguments Throw {A} e.

Definition bind {A B : Type} (r : result A) (k : A -> result B) : result B :=
  match r with
  | Ok a => k a
  | Throw e => Throw e
  end.

Notation "'let!' x ':=' r 'in' k" := (bind r (fun x => k))
  (at level 10, x name, r at level 100, k at level 200).
Notation "'do!' r 'in' k" := (bind r (fun _ => k))
  (at level 10, r at level 100, k at level 200).

(** ToBoolean: [!v] is [negb (truthy v)]; an array is an object, hence true. *)
Definition truthy (v : jsval) : bool :=
  match v with
  | JUndefined | JNull => false
  | JBool b => b
  | JStr s => negb (String.eqb s "")
  | JArr _ => true
  end.

(** [Array.prototype.join] on strings already converted. *)
Fixpoint join (sep : string) (l : list string) : string :=
  match l with
  | [] => ""
  | [s] => s
  | s :: l' => s +:+ sep +:+ join sep l'
  end.

(** ToString (string concatenation, template literals, property keys); an
    array is joined with commas, null and undefined elements giving the
    empty string. *)
Fixpoint to_string (v : jsval) : string :=
  match v with
  | JUndefined => "undefined"
  | JNull => "null"
  | JBool true => "true"
  | JBool false => "false"
  | JStr s => s
  | JArr l =>
      join "," (map (fun x => match x with
                              | JUndefined | JNull => ""
                              | _ => to_string x
                              end) l)
  end.

(** [a === b]; two arrays are equal only when they are the same object, and
    the model takes every array value for an object of its own. *)
Definition strict_eq (a b : jsval) : bool :=
  match a, b with
  | JUndefined, JUndefined => true
  | JNull, JNull => true
  | JBool x, JBool y => Bool.eqb x y
  | JStr s, JStr t => String.eqb s t
  | _, _ => false
  end.

(** [v.length]: [None] is undefined (a boolean has no such property); the
    read itself raises on undefined and null. *)
Definition get_length (v : jsval) : result (option Z) :=
  match v with
  | JUndefined | JNull => Throw (CannotRead "length")
  | JBool _ => Ok None
  | JStr s => Ok (Some (Z.of_nat (String.length s)))
  | JArr l => Ok (Some (Z.of_nat (List.length l)))
  end.

(** [!n] for a number-or-undefined [n]. *)
Definition falsy_number (n : option Z) : bool :=
  match n with
  | None => true
  | Some k => k =? 0
  end.

Definition char_val (c : ascii) : jsval := JStr (String c "").

(** [s[k]] on a string: the one-character string at [k], undefined when [k]
    is no index of [s] (negative, too large, or NaN in the source). *)
Definition String_at (s : string) (k : Z) : jsval :=
  if k <? 0 then JUndefined
  else match String.get (Z.to_nat k) s with
       | Some c => char_val c
       | None => JUndefined
       end.

(** [l[k]] on an array. *)
Definition Array_at (l : list jsval) (k : Z) : jsval :=
  if k <? 0 then JUndefined else nth (Z.to_nat k) l JUndefined.

(** [String.prototype.indexOf(pat)]: first position at which [pat] occurs,
    or -1. *)
Fixpoint String_indexOf_from (s pat : string) (i : Z) : Z :=
  if String.prefix pat s then i
  else match s with
       | EmptyString => -1
       | String _ s' => String_indexOf_from s' pat (i + 1)
       end.

Definition String_indexOf (s pat : string) : Z := String_indexOf_from s pat 0.

(** [Array.prototype.indexOf(v)]: first position holding a value [=== v]. *)
Fixpoint Array_indexOf_from (l : list jsval) (v : jsval) (i : Z) : Z :=
  match l with
  | [] => -1
  | x :: l' => if strict_eq x v then i else Array_indexOf_from l' v (i + 1)
  end.

Definition Array_indexOf (l : list jsval) (v : jsval) : Z :=
  Array_indexOf_from l v 0.

(** ** The options object *)

(** [options.k]: an own property, or undefined. *)
Definition get (o : gmap string jsval) (k : string) : jsval :=
  default JUndefined (o !! k).

(** ** The table [characterTypes] (index.js:13-23) *)

Definition dquote : ascii := "034"%char.

Definition lowercase : string := "abcdefghijklmnopqrstuvwxyz".
Definition uppercase : string := "ABCDEFGHIJKLMNOPQRSTUVWXYZ".
Definition numbers : string := "0123456789".
Definition symbols : string :=
  Eval cbv in "!@#$%^&*()_+-=[]{}|;':" +:+ String dquote ",./<>?".
Definition alphanumeric : string :=
  "abcdefghijklmnopqrstuvwxyzABCDEFGHIJKLMNOPQRSTUVWXYZ0123456789".
Definition ascii_chars : string :=
  Eval cbv in
    "abcdefghijklmnopqrstuvwxyzABCDEFGHIJKLMNOPQRSTUVWXYZ0123456789!@#$%^&*()_+-=[]{}|;':"
    +:+ String dquote ",./<>? ".
Definition base64 : string :=
  "ABCDEFGHIJKLMNOPQRSTUVWXYZabcdefghijklmnopqrstuvwxyz0123456789+/=".

(** The object literal, in the order its properties are written (the order
    [Object.keys] returns); [custom] holds [options.characters] as read when
    the constructor starts. *)
Definition characterTypes (characters : jsval) : list (string * jsval) :=
  [ ("alphanumeric", JStr alphanumeric);
    ("numbers", JStr numbers);
    ("lowercase", JStr lowercase);
    ("uppercase", JStr uppercase);
    ("symbols", JStr symbols);
    ("ascii", JStr ascii_chars);
    ("base64", JStr base64);
    ("custom", characters) ].

Definition Object_keys (t : list (string * jsval)) : list string := map fst t.

(** Names every plain object inherits from [Object.prototype]; each is bound
    to a function, or for [__proto__] to the prototype object itself. *)
Definition Object_prototype_keys : list string :=
  [ "constructor"; "__defineGetter__"; "__defineSetter__"; "hasOwnProperty";
    "__lookupGetter__"; "__lookupSetter__"; "isPrototypeOf";
    "propertyIsEnumerable"; "toString"; "valueOf"; "__proto__";
    "toLocaleString" ].

(** What a property read on the table yields: a value of the fragment, or
    one of the inherited built-in objects. *)
Inductive slot : Type :=
| Val (v : jsval)
| Builtin (name : string).

Fixpoint assoc (t : list (string * jsval)) (k : string) : option jsval :=
  match t with
  | [] => None
  | (k', v) :: t' => if String.eqb k' k then Some v else assoc t' k
  end.

(** [t[key]]: own property first, then the prototype, else undefined. *)
Definition lookup_table (t : list (string * jsval)) (key : jsval) : slot :=
  let k := to_string key in
  match assoc t k with
  | Some v => Val v
  | None =>
      if existsb (String.eqb k) Object_prototype_keys then Builtin k
      else Val JUndefined
  end.

Definition slot_truthy (s : slot) : bool :=
  match s with
  | Val v => truthy v
  | Builtin _ => true
  end.

(** ** The constructor (index.js:11-39) *)

Definition InvalidType_msg (t : list (string * jsval)) : string :=
  "Invalid character type. Available options are: "
  +:+ join ", " (Object_keys t) +:+ ";".
Definition MissingCharacters_msg : string :=
  "Characters must be specified when using custom character type.".
Definition InvalidCharacterType_msg : string :=
  "Custom characters must be a non-empty string.".

(** What the closure keeps besides the reference to [options]: the table and
    the local [secret] cell. *)
Record engine : Type := {
  table : list (string * jsval);
  secret_cell : jsval
}.

Definition Vigenere (options : gmap string jsval)
  : gmap string jsval * result engine :=
  let characterTypes := characterTypes (get options "characters") in
  let options := <["strict" := JBool (truthy (get options "strict"))]> options in
  let options :=
    if negb (truthy (get options "type"))
    then <["type" := JStr "base64"]> options
    else options in
  (options,
   if negb (slot_truthy (lookup_table characterTypes (get options "type")))
   then Throw (TypeError (InvalidType_msg characterTypes))
   else
     do! (if strict_eq (get options "type") (JStr "custom") then
        if negb (truthy (get options "characters"))
        then Throw (TypeError MissingCharacters_msg)
        else
          let! n := get_length (get options "characters") in
          if falsy_number n
          then Throw (TypeError InvalidCharacterType_msg)
          else Ok tt
      else Ok tt) in
     Ok {| table := characterTypes;
           secret_cell := if truthy (get options "secret")
                          then get options "secret" else JNull |}).

(** ** The methods (index.js:42-122) *)

(** A parameter default [p = d]: [d] is used when the argument is undefined. *)
Definition default_arg (v d : jsval) : jsval :=
  match v with
  | JUndefined => d
  | _ => v
  end.

(** [u.indexOf(v)]: strings and arrays have the method, a boolean has not,
    and on undefined or null the read of the method raises. *)
Definition indexOf (u v : jsval) : result Z :=
  match u with
  | JStr s => Ok (String_indexOf s (to_string v))
  | JArr l => Ok (Array_indexOf l v)
  | JBool _ => Throw (NotAFunction "indexOf")
  | JUndefined | JNull => Throw (CannotRead "indexOf")
  end.

(** [v.split('')]: the code units of a string, one string each. *)
Definition split_chars (v : jsval) : result (list jsval) :=
  match v with
  | JStr s => Ok (map char_val (list_ascii_of_string s))
  | JBool _ | JArr _ => Throw (NotAFunction "split")
  | JUndefined | JNull => Throw (CannotRead "split")
  end.

(** [Array.prototype.every]: stops at the first false, and at a throw. *)
Fixpoint every {A : Type} (f : A -> result bool) (l : list A) : result bool :=
  match l with
  | [] => Ok true
  | x :: l' => let! b := f x in if b then every f l' else Ok false
  end.

Definition IllegalSecretCharacter_msg (universe character : string) : string :=
  "Secret characters must contains only values from '" +:+ universe
  +:+ "'. ['" +:+ character +:+ "'] not allowed!".
Definition IllegalMessageCharacter_msg (universe character : string) : string :=
  "Message characters must contains only values from '" +:+ universe
  +:+ "'. ['" +:+ character +:+ "'] not allowed in strict mode!".

(** The callback of both [every] calls; [msg] is the template of the error.
    An inherited built-in has no [indexOf]. *)
Definition check_character (msg : string -> string -> string) (charMap : slot)
    (character : jsval) : result bool :=
  match charMap with
  | Builtin _ => Throw (NotAFunction "indexOf")
  | Val u =>
      let! k := indexOf u character in
      if k =? -1
      then Throw (TypeError (msg (to_string u) (to_string character)))
      else Ok true
  end.

Definition verifySecret (charMap : slot) (secret : jsval) : result unit :=
  if negb (truthy secret) then Throw (TypeError "Secret must be specified.")
  else
    let! n := get_length secret in
    if falsy_number n
    then Throw (TypeError "Secret must be a non-empty string.")
    else
      let! characters := split_chars secret in
      do! every (check_character IllegalSecretCharacter_msg charMap) characters in
      Ok tt.

Definition verifyMessage (charMap : slot) (message strict : jsval) : result unit :=
  let strict := default_arg strict (JBool false) in
  if negb (truthy message) then Throw (TypeError "Message must be specified.")
  else
    let! n := get_length message in
    if falsy_number n
    then Throw (TypeError "Message must be a non-empty string.")
    else if negb (truthy strict) then Ok tt
    else
      let! characters := split_chars message in
      do! every (check_character IllegalMessageCharacter_msg charMap) characters in
      Ok tt.

Inductive operation : Type := Encrypt | Decrypt.

(** The values [message[0]], ..., [message[message.length - 1]] the loop
    visits; with [message.length] undefined the loop body never runs. *)
Definition items (message : jsval) : result (list jsval) :=
  match message with
  | JUndefined | JNull => Throw (CannotRead "length")
  | JBool _ => Ok []
  | JStr s => Ok (map char_val (list_ascii_of_string s))
  | JArr l => Ok l
  end.

(** [a % n] on numbers; [None] stands for NaN (and for undefined used as a
    number), which is what a zero or undefined divisor gives. *)
Definition js_rem (a n : option Z) : option Z :=
  match a, n with
  | Some a, Some n => if n =? 0 then None else Some (Z.rem a n)
  | _, _ => None
  end.

Definition js_add (a b : option Z) : option Z :=
  match a, b with
  | Some a, Some b => Some (a + b)
  | _, _ => None
  end.

(** [v[k]]; a NaN index names no element. *)
Definition item_at (v : jsval) (k : option Z) : result jsval :=
  match v, k with
  | (JUndefined | JNull), _ => Throw (CannotRead "index")
  | JBool _, _ => Ok JUndefined
  | _, None => Ok JUndefined
  | JStr s, Some k => Ok (String_at s k)
  | JArr l, Some k => Ok (Array_at l k)
  end.

(** The [for] loop of [encryptOrDecrypt] from index [i] on, [letters] being
    the message items not yet visited and [value] the accumulator
    [encryptedMessage.value]. *)
Fixpoint loop (charMap : slot) (secret : jsval) (op : operation)
    (letters : list jsval) (i : Z) (value : string) : result string :=
  match letters with
  | [] => Ok value
  | messageLetter :: rest =>
      match charMap with
      | Builtin _ => Throw (NotAFunction "indexOf")
      | Val u =>
          let! k := indexOf u messageLetter in
          if k =? -1
          then loop charMap secret op rest (i + 1)
                 (value +:+ to_string messageLetter)
          else
            let! n := get_length secret in
            let! secretLetter := item_at secret (js_rem (Some i) n) in
            let! x := indexOf u secretLetter in
            let! y := indexOf u messageLetter in
            let! L := get_length u in
            let! out :=
              match op with
              | Encrypt => item_at u (js_rem (Some (x + y)) L)
              | Decrypt => item_at u (js_rem (js_add (Some (y - x)) L) L)
              end in
            loop charMap secret op rest (i + 1) (value +:+ to_string out)
      end
  end.

Definition encryptOrDecrypt (e : engine) (options : gmap string jsval)
    (message secret : jsval) (op : operation) : result string :=
  let charMap := lookup_table (table e) (get options "type") in
  do! verifySecret charMap secret in
  do! verifyMessage charMap message (get options "strict") in
  let! letters := items message in
  loop charMap secret op letters 0 "".

Definition encode (e : engine) (options : gmap string jsval)
    (message secret : jsval) : result string :=
  encryptOrDecrypt e options message
    (default_arg secret (get options "secret")) Encrypt.

Definition decode (e : engine) (options : gmap string jsval)
    (message secret : jsval) : result string :=
  encryptOrDecrypt e options message
    (default_arg secret (get options "secret")) Decrypt.

(** ** The second copy of the constructor (index.spec.js:43-78)

    The test file carries a later revision of the module.  Its table lists
    the kinds in another order, keeps a placeholder under [custom], and the
    check on custom characters tests the type instead of the length. *)

Module SpecCopy.

Definition characterTypes : list (string * jsval) :=
  [ ("numbers", JStr numbers);
    ("custom", JStr "CUSTOM_TYPE");
    ("lowercase", JStr lowercase);
    ("uppercase", JStr uppercase);
    ("symbols", JStr symbols);
    ("base64", JStr base64);
    ("alphanumeric", JStr alphanumeric);
    ("ascii", JStr ascii_chars) ].

Definition InvalidType_msg : string :=
  "Invalid type provided. Available options are: "
  +:+ join ", " (Object_keys characterTypes) +:+ ";".

(** [typeof v !== "string"] *)
Definition not_a_string (v : jsval) : bool :=
  match v with
  | JStr _ => false
  | _ => true
  end.

Definition Vigenere (options : gmap string jsval)
  : gmap string jsval * result engine :=
  let options := <["strict" := JBool (truthy (get options "strict"))]> options in
  let options :=
    if negb (truthy (get options "type"))
    then <["type" := JStr "base64"]> options
    else options in
  if negb (slot_truthy (lookup_table characterTypes (get options "type")))
  then (options, Throw (TypeError InvalidType_msg))
  else
    let finish (options : gmap string jsval) :=
      (options,
       Ok {| table := characterTypes;
             secret_cell := if truthy (get options "secret")
                            then get options "secret" else JNull |}) in
    if strict_eq (get options "type") (JStr "custom") then
      if negb (truthy (get options "characters"))
      then (options, Throw (TypeError MissingCharacters_msg))
      else if not_a_string (get options "characters")
      then (options, Throw (TypeError InvalidCharacterType_msg))
      else finish (<["characters" := JStr (to_string (get options "characters"))]> options)
    else finish options.

(** The methods of the copy (index.spec.js:80-172).  [verifyMessage], the
    loop and the two wrappers read as in index.js; [verifySecret] has one
    more check, on [secret.value], where [secret] is the parameter. *)

(** [v.value]: no value of the fragment has such a property; the read raises
    on undefined and null. *)
Definition value_of (v : jsval) : result jsval :=
  match v with
  | JUndefined | JNull => Throw (CannotRead "value")
  | _ => Ok JUndefined
  end.

Definition verifySecret (charMap : slot) (secret : jsval) : result unit :=
  if negb (truthy secret) then Throw (TypeError "Secret must be specified.")
  else
    let! n := get_length secret in
    if falsy_number n
    then Throw (TypeError "Secret must be a non-empty string.")
    else
      let! v := value_of secret in
      if not_a_string v
      then Throw (TypeError "Secret key characters must be string type.")
      else
        let! characters := split_chars secret in
        do! every (check_character IllegalSecretCharacter_msg charMap) characters in
        Ok tt.

Definition encryptOrDecrypt (e : engine) (options : gmap string jsval)
    (message secret : jsval) (op : operation) : result string :=
  let charMap := lookup_table (table e) (get options "type") in
  do! verifySecret charMap secret in
  do! verifyMessage charMap message (get options "strict") in
  let! letters := items message in
  loop charMap secret op letters 0 "".

Definition encode (e : engine) (options : gmap string jsval)
    (message secret : jsval) : result string :=
  encryptOrDecrypt e options message
    (default_arg secret (get options "secret")) Encrypt.

Definition decode (e : engine) (options : gmap string jsval)
    (message secret : jsval) : result string :=
  encryptOrDecrypt e options message
    (default_arg secret (get options "secret")) Decrypt.

End SpecCopy.

(** ** The tests' inputs (index.spec.js:5-17) *)

Definition object (l : list (string * jsval)) : gmap string jsval :=
  list_to_map l.

Definition options_invalid : gmap string jsval :=
  object [("type", JStr "invalid")].
Definition options01 : gmap string jsval :=
  object [("type", JStr "custom")].
Definition options02 : gmap string jsval :=
  object [("type", JStr "custom"); ("characters", JStr "")].
Definition options03 : gmap string jsval :=
  object [("type", JStr "custom"); ("characters", JNull)].
Definition options04 : gmap string jsval :=
  object [("type", JStr "custom"); ("characters", JArr [JStr "abc"])].

(** The message the first test expects. *)
Definition expected_InvalidType_msg : string :=
  "Invalid type provided. Available options are: numbers, custom, lowercase, uppercase, symbols, base64, alphanumeric, ascii;".

(** ** Vocabulary of the statements *)

Definition chars (s : string) : list ascii := list_ascii_of_string s.

(** Every symbol of [s] belongs to the universe [U]. *)
Definition within (s U : string) : Prop := chars s ⊆ chars U.

(** [x] is the first position of [c] in [s] (what [indexOf] returns). *)
Definition first_occurrence (s : string) (c : ascii) (x : nat) : Prop :=
  String.get x s = Some c ∧ ∀ j, (j < x)%nat → String.get j s ≠ Some c.

(** No symbol is written twice in [s]. *)
Definition distinct_symbols (s : string) : Prop := NoDup (chars s).

(** The public method that runs an operation. *)
Definition method (op : operation)
  : engine → gmap string jsval → jsval → jsval → result string :=
  match op with
  | Encrypt => encode
  | Decrypt => decode
  end.

(** The index the specification gives for the output symbol (section 4.3,
    step 4), with the mathematical [mod]. *)
Definition spec_index (op : operation) (x y L : Z) : Z :=
  match op with
  | Encrypt => (x + y) `mod` L
  | Decrypt => (y - x + L) `mod` L
  end.

(** The universe the engine works over at a call: [characterTypes[options.type]]. *)
Definition charMap (e : engine) (options : gmap string jsval) : slot :=
  lookup_table (table e) (get options "type").

(** [secret = options.secret] resolved. *)
Definition resolved (options : gmap string jsval) (secret : jsval) : jsval :=
  default_arg secret (get options "secret").

(** ** The loop on a string universe, as a map over the message

    [shift] is what one iteration appends for the symbol [c] at index [i]
    when universe and secret are strings; [transform] collects the
    iterations.  The lemmas below show that the loop computes them. *)

Definition index_of (U : string) (c : ascii) : Z :=
  String_indexOf U (String c "").

Definition symbol_at (s : string) (k : Z) (d : ascii) : ascii :=
  match String.get (Z.to_nat k) s with
  | Some c => c
  | None => d
  end.

Definition shift (U key : string) (op : operation) (i : Z) (c : ascii) : ascii :=
  let y := index_of U c in
  if y =? -1 then c
  else
    let k := symbol_at key (i `mod` Z.of_nat (String.length key)) c in
    symbol_at U (spec_index op (index_of U k) y (Z.of_nat (String.length U))) c.

Fixpoint transform (U key : string) (op : operation) (cs : list ascii) (i : Z)
  : list ascii :=
  match cs with
  | [] => []
  | c :: cs' => shift U key op i c :: transform U key op cs' (i + 1)
  end.

(** The built-in kinds and their universes. *)
Definition builtin_kinds : list (string * string) :=
  [ ("alphanumeric", alphanumeric); ("numbers", numbers);
    ("lowercase", lowercase); ("uppercase", uppercase);
    ("symbols", symbols); ("ascii", ascii_chars); ("base64", base64) ].

(** A universe that is a non-empty string, a non-empty array, or one of the
    inherited built-in objects. *)
Definition nonempty_universe (s : slot) : Prop :=
  match s with
  | Val (JStr U) => U ≠ ""
  | Val (JArr l) => l ≠ []
  | Val _ => False
  | Builtin _ => True
  end.


(** ** Concrete engines used in the examples *)

Definition lowercase_options : gmap string jsval :=
  (Vigenere (object [("type", JStr "lowercase")])).1.
Definition lowercase_strict_options : gmap string jsval :=
  (Vigenere (object [("type", JStr "lowercase"); ("strict", JBool true)])).1.
Definition builtin_engine : engine :=
  {| table := characterTypes JUndefined; secret_cell := JNull |}.
Definition aba_options : gmap string jsval :=
  (Vigenere (object [("type", JStr "custom"); ("characters", JStr "aba")])).1.
Definition aba_engine : engine :=
  {| table := characterTypes (JStr "aba"); secret_cell := JNull |}.

Definition numbers_options : gmap string jsval :=
  (Vigenere (object [("type", JStr "numbers")])).1.
Definition array_characters : jsval := JArr [JStr "a"; JStr "b"; JStr "xyz"].
Definition array_options : gmap string jsval :=
  (Vigenere (object [("type", JStr "custom"); ("characters", array_characters)])).1.
Definition array_engine : engine :=
  {| table := characterTypes array_characters; secret_cell := JNull |}.

(** The round trip for every string universe a construction can resolve,
    with or without repeated symbols. *)
Definition round_trip_any_universe : Prop :=
  ∀ (options0 : gmap string jsval) (e : engine) (U key message : string),
    (Vigenere options0).2 = Ok e →
    let options := (Vigenere options0).1 in
    charMap e options = Val (JStr U) →
    key ≠ "" → within key U →
    message ≠ "" →
    truthy (get options "strict") = false ∨ within message U →
    ∃ cipher, encode e options (JStr message) (JStr key) = Ok cipher
              ∧ decode e options (JStr cipher) (JStr key) = Ok message.

(** Strict rejection of the message whatever the secret is. *)
Definition strict_rejection_any_secret : Prop :=
  ∀ (e : engine) (options : gmap string jsval) (U pre post : string)
    (c : ascii) (secret : jsval) (op : operation),
    charMap e options = Val (JStr U) →
    truthy (get options "strict") = true →
    within pre U → c ∉ chars U →
    method op e options (JStr (pre +:+ String c post)) secret =
      Throw (TypeError (IllegalMessageCharacter_msg U (String c ""))).

(** * Properties of the constructor *)

Lemma get_insert_eq (o : gmap string jsval) k v : get (<[k := v]> o) k = v.
Proof. unfold get. by rewrite lookup_insert_eq. Qed.

Lemma get_insert_ne (o : gmap string jsval) k k' v :
  k ≠ k' → get (<[k := v]> o) k' = get o k'.
Proof. intros H. unfold get. by rewrite lookup_insert_ne. Qed.

(** The object the constructor leaves behind, whatever its outcome. *)
Lemma Vigenere_options (options : gmap string jsval) :
  (Vigenere options).1 =
    let o := <["strict" := JBool (truthy (get options "strict"))]> options in
    if truthy (get options "type") then o else <["type" := JStr "base64"]> o.
Proof.
  unfold Vigenere. cbn [fst]. rewrite get_insert_ne by done.
  by destruct (truthy (get options "type")).
Qed.

(** C10. Construction writes [options.strict] (the boolean coercion of its
    old value) and, when [type] is absent, [options.type = 'base64']; the
    caller sees both on the record; every other field is left as it was (and
    [type] too when it was given and truthy). *)
Theorem Vigenere_mutates_only_strict_and_type (options : gmap string jsval) :
  let options' := (Vigenere options).1 in
  options' !! "strict" = Some (JBool (truthy (get options "strict")))
  ∧ (options !! "type" = None → options' !! "type" = Some (JStr "base64"))
  ∧ (truthy (get options "type") = true → options' !! "type" = options !! "type")
  ∧ (∀ k, k ≠ "strict" → k ≠ "type" → options' !! k = options !! k).
Proof.
  cbv zeta. rewrite Vigenere_options. cbv zeta.
  destruct (truthy (get options "type")) eqn:Ht; repeat split.
  - by rewrite lookup_insert_eq.
  - intros Hn. unfold get in Ht. by rewrite Hn in Ht.
  - intros _. by rewrite lookup_insert_ne.
  - intros k Hs _. by rewrite lookup_insert_ne.
  - rewrite lookup_insert_ne by done. by rewrite lookup_insert_eq.
  - intros _. by rewrite lookup_insert_eq.
  - done.
  - intros k Hs Hk. rewrite lookup_insert_ne by done. by rewrite lookup_insert_ne.
Qed.

(** With [type = 'custom'] the table's [custom] slot is [options.characters]
    itself, so falsy characters are caught by the kind check of line 27 and
    the check of line 32 is never reached with them. *)
Lemma Vigenere_custom_falsy_characters (options : gmap string jsval) :
  get options "type" = JStr "custom" →
  truthy (get options "characters") = false →
  (Vigenere options).2 =
    Throw (TypeError (InvalidType_msg (characterTypes (get options "characters")))).
Proof.
  intros Ht Hc. unfold Vigenere. cbn [snd].
  rewrite get_insert_ne by done. rewrite Ht. cbn [truthy String.eqb negb].
  rewrite !get_insert_ne by done. rewrite Ht.
  unfold lookup_table. cbn. by rewrite Hc.
Qed.

(** X20. In the copy, [type = 'custom'] with falsy characters (absent, null,
    empty, false) fails with "Characters must be specified when using custom
    character type.". *)
Lemma SpecCopy_custom_falsy_characters (options : gmap string jsval) :
  get options "type" = JStr "custom" →
  truthy (get options "characters") = false →
  (SpecCopy.Vigenere options).2 = Throw (TypeError MissingCharacters_msg).
Proof.
  intros Ht Hc. unfold SpecCopy.Vigenere.
  rewrite get_insert_ne by done. rewrite Ht. cbn [truthy String.eqb negb].
  rewrite !get_insert_ne by done. rewrite Ht, Hc. reflexivity.
Qed.

(** X21. In the copy, [type = 'custom'] with truthy characters that are not
    a string (an array, [true]) fails with "Custom characters must be a
    non-empty string.". *)
Lemma SpecCopy_custom_not_a_string (options : gmap string jsval) :
  get options "type" = JStr "custom" →
  truthy (get options "characters") = true →
  SpecCopy.not_a_string (get options "characters") = true →
  (SpecCopy.Vigenere options).2 = Throw (TypeError InvalidCharacterType_msg).
Proof.
  intros Ht Hc Hn. unfold SpecCopy.Vigenere.
  rewrite get_insert_ne by done. rewrite Ht. cbn [truthy String.eqb negb].
  rewrite !get_insert_ne by done. rewrite Ht, Hc, Hn. reflexivity.
Qed.

(** C6. On the three inputs of the test (characters absent, empty, null)
    index.js throws the invalid-kind error, not "Characters must be
    specified ..."; the copy in the test file throws the latter. *)
Theorem custom_without_characters_throws_InvalidType :
  let thrown :=
    Throw (TypeError "Invalid character type. Available options are: alphanumeric, numbers, lowercase, uppercase, symbols, ascii, base64, custom;") in
  (Vigenere options01).2 = thrown
  ∧ (Vigenere options02).2 = thrown
  ∧ (Vigenere options03).2 = thrown
  ∧ thrown ≠ Throw (A := engine) (TypeError MissingCharacters_msg)
  ∧ (SpecCopy.Vigenere options01).2 = Throw (TypeError MissingCharacters_msg)
  ∧ (SpecCopy.Vigenere options02).2 = Throw (TypeError MissingCharacters_msg)
  ∧ (SpecCopy.Vigenere options03).2 = Throw (TypeError MissingCharacters_msg).
Proof. cbv zeta. split_and!; try (vm_compute; reflexivity). discriminate. Qed.

(** C7. On the array ["abc"] of the test index.js constructs an engine: the
    array is truthy and its length is 1.  The copy in the test file rejects
    it with "Custom characters must be a non-empty string.". *)
Theorem custom_array_characters_accepted :
  (Vigenere options04).2 =
    Ok {| table := characterTypes (JArr [JStr "abc"]); secret_cell := JNull |}
  ∧ (SpecCopy.Vigenere options04).2 = Throw (TypeError InvalidCharacterType_msg).
Proof. split; vm_compute; reflexivity. Qed.

(** C8. On the unknown kind of the test index.js throws a message that lists
    the kinds in the order of its own table, under another heading than the
    one the test expects; the copy in the test file throws the expected
    message. *)
Theorem unknown_type_message_order :
  (Vigenere options_invalid).2 =
    Throw (TypeError "Invalid character type. Available options are: alphanumeric, numbers, lowercase, uppercase, symbols, ascii, base64, custom;")
  ∧ Object_keys (characterTypes JUndefined) =
      ["alphanumeric"; "numbers"; "lowercase"; "uppercase"; "symbols";
       "ascii"; "base64"; "custom"]
  ∧ (Vigenere options_invalid).2 ≠ Throw (TypeError expected_InvalidType_msg)
  ∧ (SpecCopy.Vigenere options_invalid).2 =
      Throw (TypeError expected_InvalidType_msg).
Proof. split_and!; try (vm_compute; reflexivity). vm_compute. discriminate. Qed.

(** A name inherited from [Object.prototype] is no kind, and yet passes the
    kind check in both copies: the table is a plain object. *)
Lemma inherited_name_accepted :
  (∃ e, (Vigenere (object [("type", JStr "constructor")])).2 = Ok e)
  ∧ (∃ e, (SpecCopy.Vigenere (object [("type", JStr "constructor")])).2 = Ok e).
Proof. split; eexists; vm_compute; reflexivity. Qed.

(** * Strings as sequences of symbols *)

Lemma get_chars (s : string) (n : nat) : String.get n s = chars s !! n.
Proof.
  revert n. induction s as [|a s IH]; intros [|n]; cbn; try done.
Qed.

Lemma length_chars (s : string) : length (chars s) = String.length s.
Proof. unfold chars. induction s as [|a s IH]; cbn; [done | by rewrite IH]. Qed.

Lemma chars_of_list (l : list ascii) : chars (string_of_list_ascii l) = l.
Proof. apply list_ascii_of_string_of_list_ascii. Qed.

Lemma append_cons (a : ascii) (s t : string) :
  String a s +:+ t = String a (s +:+ t).
Proof. reflexivity. Qed.

Lemma append_empty_l (t : string) : "" +:+ t = t.
Proof. reflexivity. Qed.

Lemma chars_append (s t : string) : chars (s +:+ t) = chars s ++ chars t.
Proof.
  unfold chars. induction s as [|a s IH]; [done |].
  rewrite append_cons. cbn. by rewrite IH.
Qed.

Lemma append_assoc (s t u : string) : (s +:+ t) +:+ u = s +:+ (t +:+ u).
Proof.
  induction s as [|a s IH]; [done |]. rewrite !append_cons. by rewrite IH.
Qed.

Lemma nonempty_length (s : string) : s ≠ "" ↔ (0 < String.length s)%nat.
Proof. destruct s; cbn; split; intros; try done; lia. Qed.

Lemma truthy_JStr (s : string) : truthy (JStr s) = true ↔ s ≠ "".
Proof.
  cbn. destruct (String.eqb_spec s ""); cbn; split; intros; congruence.
Qed.

Lemma within_cons (a : ascii) (s U : string) :
  within (String a s) U ↔ a ∈ chars U ∧ within s U.
Proof.
  unfold within. cbn. split.
  - intros H. split; [apply H; left | intros c Hc; apply H; by right].
  - intros [Ha H] c Hc. apply elem_of_cons in Hc as [-> | Hc]; auto.
Qed.

Lemma within_append (s t U : string) :
  within (s +:+ t) U ↔ within s U ∧ within t U.
Proof.
  unfold within. rewrite chars_append. split.
  - intros H. split; intros c Hc; apply H, elem_of_app; auto.
  - intros [Hs Ht] c Hc. apply elem_of_app in Hc as [Hc | Hc]; auto.
Qed.

(** * [indexOf] of one symbol in a string *)

Lemma prefix_empty (s : string) : String.prefix "" s = true.
Proof. by destruct s. Qed.

(** Searching from offset [i]: either the symbol is absent and the result is
    -1, or the result is [i] plus its first position. *)
Lemma String_indexOf_from_spec (s : string) (c : ascii) (i : Z) :
  (String_indexOf_from s (String c "") i = -1 ∧ c ∉ chars s)
  ∨ (∃ n, String_indexOf_from s (String c "") i = i + Z.of_nat n
          ∧ first_occurrence s c n).
Proof.
  revert i. induction s as [|a s IH]; intros i.
  - left. split; [done | apply not_elem_of_nil].
  - cbn [String_indexOf_from String.prefix].
    destruct (ascii_dec c a) as [-> | Hne].
    + rewrite prefix_empty. right. exists 0%nat.
      split; [lia |]. split; [done | intros j Hj; lia].
    + destruct (IH (i + 1)) as [[Hr Hnot] | (n & Hr & Hget & Hmin)].
      * left. split; [done |]. cbn. rewrite not_elem_of_cons. by split.
      * right. exists (S n). split; [lia |]. split; [done |].
        intros [|j] Hj; cbn; [congruence | apply Hmin; lia].
Qed.

Lemma first_occurrence_elem (s : string) (c : ascii) (n : nat) :
  first_occurrence s c n → c ∈ chars s.
Proof.
  intros [Hget _]. rewrite get_chars in Hget. by eapply list_elem_of_lookup_2.
Qed.

Lemma first_occurrence_lt (s : string) (c : ascii) (n : nat) :
  first_occurrence s c n → (n < String.length s)%nat.
Proof.
  intros [Hget _]. rewrite get_chars in Hget.
  apply lookup_lt_Some in Hget. by rewrite length_chars in Hget.
Qed.

Lemma first_occurrence_unique (s : string) (c : ascii) (n m : nat) :
  first_occurrence s c n → first_occurrence s c m → n = m.
Proof.
  intros [Hn Hminn] [Hm Hminm].
  destruct (Nat.lt_trichotomy n m) as [H | [H | H]]; [| done |].
  - by apply Hminm in H.
  - by apply Hminn in H.
Qed.

Lemma index_of_first (U : string) (c : ascii) (n : nat) :
  first_occurrence U c n → index_of U c = Z.of_nat n.
Proof.
  intros Hn. unfold index_of, String_indexOf.
  destruct (String_indexOf_from_spec U c 0) as [[_ Hnot] | (m & -> & Hm)].
  - by apply first_occurrence_elem in Hn.
  - rewrite (first_occurrence_unique _ _ _ _ Hn Hm). lia.
Qed.

Lemma index_of_absent (U : string) (c : ascii) :
  c ∉ chars U ↔ index_of U c = -1.
Proof.
  unfold index_of, String_indexOf.
  destruct (String_indexOf_from_spec U c 0) as [[Hr Hnot] | (m & Hr & Hm)].
  - done.
  - split; [| lia]. intros Hnot. by apply first_occurrence_elem in Hm.
Qed.

Lemma index_of_present (U : string) (c : ascii) :
  c ∈ chars U → ∃ n, index_of U c = Z.of_nat n ∧ first_occurrence U c n.
Proof.
  intros Hin. unfold index_of, String_indexOf.
  destruct (String_indexOf_from_spec U c 0) as [[_ Hnot] | (m & -> & Hm)];
    [done |].
  exists m. split; [lia | done].
Qed.

Lemma elem_dec (U : string) (c : ascii) : c ∈ chars U ∨ c ∉ chars U.
Proof. destruct (decide (c ∈ chars U)); auto. Qed.

(** With distinct symbols every position is a first position. *)
Lemma distinct_first_occurrence (U : string) (c : ascii) (n : nat) :
  distinct_symbols U → String.get n U = Some c → first_occurrence U c n.
Proof.
  intros Hnd Hget. split; [done |]. intros j Hj Hgetj.
  rewrite get_chars in Hget, Hgetj.
  pose proof (NoDup_lookup _ _ _ _ Hnd Hget Hgetj). lia.
Qed.

(** * Validation and the loop over a string universe *)

Lemma truthy_default_false (strict : jsval) :
  truthy (default_arg strict (JBool false)) = truthy strict.
Proof. by destruct strict. Qed.

Lemma falsy_number_length (s : string) :
  s ≠ "" → falsy_number (Some (Z.of_nat (String.length s))) = false.
Proof.
  intros H%nonempty_length. cbn. apply Z.eqb_neq. lia.
Qed.

Lemma String_at_in_range (s : string) (k : Z) (d : ascii) :
  0 ≤ k < Z.of_nat (String.length s) →
  String_at s k = char_val (symbol_at s k d).
Proof.
  intros Hk. unfold String_at, symbol_at.
  destruct (Z.ltb_spec k 0); [lia |].
  destruct (String.get (Z.to_nat k) s) eqn:Hget; [done |].
  rewrite get_chars in Hget. apply lookup_ge_None in Hget.
  rewrite length_chars in Hget. lia.
Qed.

Lemma symbol_at_get (s : string) (k : Z) (d : ascii) :
  0 ≤ k < Z.of_nat (String.length s) →
  String.get (Z.to_nat k) s = Some (symbol_at s k d).
Proof.
  intros Hk. unfold symbol_at.
  destruct (String.get (Z.to_nat k) s) eqn:Hget; [done |].
  rewrite get_chars in Hget. apply lookup_ge_None in Hget.
  rewrite length_chars in Hget. lia.
Qed.

Lemma spec_index_range (op : operation) (x y L : Z) :
  0 < L → 0 ≤ spec_index op x y L < L.
Proof. intros HL. destruct op; cbn; apply Z.mod_pos_bound; lia. Qed.

Section StringUniverse.
Variable U : string.

Lemma indexOf_char (c : ascii) :
  indexOf (JStr U) (char_val c) = Ok (index_of U c).
Proof. reflexivity. Qed.

Lemma check_character_in msg (c : ascii) :
  c ∈ chars U → check_character msg (Val (JStr U)) (char_val c) = Ok true.
Proof.
  intros Hin. unfold check_character. rewrite indexOf_char. cbn [bind].
  destruct (index_of_present U c Hin) as (n & -> & _).
  destruct (Z.eqb_spec (Z.of_nat n) (-1)); [lia | done].
Qed.

Lemma check_character_out msg (c : ascii) :
  c ∉ chars U →
  check_character msg (Val (JStr U)) (char_val c) =
    Throw (TypeError (msg U (String c ""))).
Proof.
  intros Hout. unfold check_character. rewrite indexOf_char. cbn [bind].
  apply index_of_absent in Hout as ->. reflexivity.
Qed.

Lemma every_check_ok msg (cs : list ascii) :
  cs ⊆ chars U →
  every (check_character msg (Val (JStr U))) (map char_val cs) = Ok true.
Proof.
  induction cs as [|c cs IH]; intros Hsub; [done |].
  cbn [map every]. rewrite check_character_in by (apply Hsub; left).
  cbn [bind]. apply IH. intros x Hx. apply Hsub. by right.
Qed.

Lemma every_check_bad msg (pre post : list ascii) (c : ascii) :
  pre ⊆ chars U → c ∉ chars U →
  every (check_character msg (Val (JStr U))) (map char_val (pre ++ c :: post)) =
    Throw (TypeError (msg U (String c ""))).
Proof.
  intros Hpre Hc. induction pre as [|a pre IH].
  - cbn [app map every]. by rewrite check_character_out.
  - cbn [app map every]. rewrite check_character_in by (apply Hpre; left).
    cbn [bind]. apply IH. intros x Hx. apply Hpre. by right.
Qed.

Lemma every_check_inv msg (cs : list ascii) (b : bool) :
  every (check_character msg (Val (JStr U))) (map char_val cs) = Ok b →
  cs ⊆ chars U.
Proof.
  induction cs as [|c cs IH]; intros Hev x Hx.
  - by apply elem_of_nil in Hx.
  - cbn [map every] in Hev. destruct (elem_dec U c) as [Hin | Hout].
    + rewrite check_character_in in Hev by done. cbn [bind] in Hev.
      apply elem_of_cons in Hx as [-> | Hx]; [done | by apply IH].
    + by rewrite check_character_out in Hev.
Qed.

Lemma verifySecret_string (key : string) :
  key ≠ "" →
  verifySecret (Val (JStr U)) (JStr key) =
    do! every (check_character IllegalSecretCharacter_msg (Val (JStr U)))
          (map char_val (chars key)) in Ok tt.
Proof.
  intros Hne. unfold verifySecret.
  apply truthy_JStr in Hne as Ht. rewrite Ht. cbn [negb get_length bind].
  by rewrite falsy_number_length.
Qed.

Lemma verifySecret_ok (key : string) :
  key ≠ "" → within key U → verifySecret (Val (JStr U)) (JStr key) = Ok tt.
Proof.
  intros Hne Hin. rewrite verifySecret_string by done.
  by rewrite every_check_ok.
Qed.

Lemma verifySecret_bad (pre post : string) (c : ascii) :
  within pre U → c ∉ chars U →
  verifySecret (Val (JStr U)) (JStr (pre +:+ String c post)) =
    Throw (TypeError (IllegalSecretCharacter_msg U (String c ""))).
Proof.
  intros Hpre Hc. rewrite verifySecret_string.
  - rewrite chars_append. change (chars (String c post)) with (c :: chars post).
    by rewrite every_check_bad.
  - by destruct pre.
Qed.

Lemma verifySecret_inv (secret : jsval) :
  verifySecret (Val (JStr U)) secret = Ok tt →
  ∃ key, secret = JStr key ∧ key ≠ "" ∧ within key U.
Proof.
  unfold verifySecret. destruct secret as [| | b | key | l]; try done.
  - destruct b; done.
  - destruct (truthy (JStr key)) eqn:Ht; [| done].
    apply truthy_JStr in Ht. cbn [negb get_length bind].
    rewrite falsy_number_length by done. cbn [split_chars bind].
    destruct (every _ _) as [b |] eqn:Hev; [| done].
    intros _. exists key. repeat split; try done.
    by eapply every_check_inv.
  - cbn. by destruct (Z.of_nat (length l) =? 0).
Qed.

Lemma verifyMessage_string (message : string) (strict : jsval) :
  message ≠ "" →
  verifyMessage (Val (JStr U)) (JStr message) strict =
    if truthy strict
    then do! every (check_character IllegalMessageCharacter_msg (Val (JStr U)))
               (map char_val (chars message)) in Ok tt
    else Ok tt.
Proof.
  intros Hne. unfold verifyMessage. rewrite truthy_default_false.
  apply truthy_JStr in Hne as Ht. rewrite Ht. cbn [negb get_length bind].
  rewrite falsy_number_length by done. by destruct (truthy strict).
Qed.

Lemma verifyMessage_ok (message : string) (strict : jsval) :
  message ≠ "" → truthy strict = false ∨ within message U →
  verifyMessage (Val (JStr U)) (JStr message) strict = Ok tt.
Proof.
  intros Hne Hok. rewrite verifyMessage_string by done.
  destruct (truthy strict); [| done].
  destruct Hok as [? | Hin]; [done |]. by rewrite every_check_ok.
Qed.

Lemma verifyMessage_bad (pre post : string) (c : ascii) (strict : jsval) :
  truthy strict = true → within pre U → c ∉ chars U →
  verifyMessage (Val (JStr U)) (JStr (pre +:+ String c post)) strict =
    Throw (TypeError (IllegalMessageCharacter_msg U (String c ""))).
Proof.
  intros Hs Hpre Hc. rewrite verifyMessage_string by (by destruct pre).
  rewrite Hs, chars_append. change (chars (String c post)) with (c :: chars post).
  by rewrite every_check_bad.
Qed.

(** ** The loop, for a secret that passed [verifySecret] *)

Variable key : string.
Hypothesis key_nonempty : key ≠ "".
Hypothesis key_within : within key U.

Lemma key_symbol (i : Z) (d : ascii) :
  0 ≤ i →
  let n := Z.of_nat (String.length key) in
  let k := symbol_at key (i `mod` n) d in
  String_at key (Z.rem i n) = char_val k ∧ k ∈ chars U.
Proof.
  intros Hi n k. apply nonempty_length in key_nonempty as Hlen.
  assert (Hn : 0 < n) by (unfold n; lia).
  rewrite Z.rem_mod_nonneg by lia.
  pose proof (Z.mod_pos_bound i n Hn) as Hr.
  split; [by apply String_at_in_range |].
  apply key_within. unfold k.
  pose proof (symbol_at_get key (i `mod` n) d Hr) as Hget.
  rewrite get_chars in Hget. by eapply list_elem_of_lookup_2.
Qed.

Lemma loop_step (op : operation) (c : ascii) (rest : list jsval) (i : Z)
    (value : string) :
  0 ≤ i →
  loop (Val (JStr U)) (JStr key) op (char_val c :: rest) i value =
    loop (Val (JStr U)) (JStr key) op rest (i + 1)
      (value +:+ String (shift U key op i c) "").
Proof.
  intros Hi. cbn [loop]. rewrite indexOf_char. cbn [bind]. unfold shift.
  destruct (Z.eqb_spec (index_of U c) (-1)) as [Hy | Hy]; [done |].
  apply nonempty_length in key_nonempty as Hlen.
  cbn [get_length bind js_rem].
  set (n := Z.of_nat (String.length key)).
  set (L := Z.of_nat (String.length U)).
  destruct (Z.eqb_spec n 0) as [Hn | _]; [unfold n in Hn; lia |].
  cbn [item_at bind].
  destruct (key_symbol i c Hi) as [Hat Hk]. fold n in Hat, Hk.
  rewrite Hat, indexOf_char. cbn [bind].
  destruct (index_of_present U _ Hk) as (x & Hx & Hfx).
  destruct (elem_dec U c) as [Hc | Hc]; [| by apply index_of_absent in Hc].
  destruct (index_of_present U _ Hc) as (y & Hyy & Hfy).
  apply first_occurrence_lt in Hfx, Hfy.
  assert (HL : 0 < L) by (unfold L; lia).
  pose proof (spec_index_range op (index_of U (symbol_at key (i `mod` n) c))
                (index_of U c) L HL) as Hrange.
  destruct (Z.eqb_spec L 0) as [? | _]; [lia |].
  destruct op; cbn [js_add js_rem spec_index] in *.
  - destruct (Z.eqb_spec L 0) as [? | _]; [lia |]. cbn [item_at bind].
    rewrite Z.rem_mod_nonneg by lia.
    by rewrite (String_at_in_range U _ c).
  - destruct (Z.eqb_spec L 0) as [? | _]; [lia |]. cbn [item_at bind].
    rewrite Z.rem_mod_nonneg by (unfold L; lia).
    by rewrite (String_at_in_range U _ c).
Qed.

Lemma loop_transform (op : operation) (cs : list ascii) (i : Z) (value : string) :
  0 ≤ i →
  loop (Val (JStr U)) (JStr key) op (map char_val cs) i value =
    Ok (value +:+ string_of_list_ascii (transform U key op cs i)).
Proof.
  revert i value. induction cs as [|c cs IH]; intros i value Hi.
  - cbn. f_equal. induction value as [|a v IHv]; [done |].
    rewrite append_cons. by rewrite <- IHv.
  - cbn [map]. rewrite loop_step by done. rewrite IH by lia.
    cbn [transform string_of_list_ascii]. by rewrite append_assoc.
Qed.

End StringUniverse.

(** * What one iteration emits *)

Lemma transform_length (U key : string) (op : operation) (cs : list ascii) (i : Z) :
  length (transform U key op cs i) = length cs.
Proof. revert i. induction cs as [|c cs IH]; intros i; cbn; [done | by rewrite IH]. Qed.

Lemma transform_lookup (U key : string) (op : operation) (cs : list ascii)
    (i : Z) (j : nat) :
  transform U key op cs i !! j = shift U key op (i + Z.of_nat j) <$> cs !! j.
Proof.
  revert i j. induction cs as [|c cs IH]; intros i [|j]; cbn [transform]; try done.
  - cbn. do 3 f_equal. lia.
  - cbn [lookup list_lookup]. rewrite IH. do 2 f_equal. lia.
Qed.

Lemma shift_absent (U key : string) (op : operation) (i : Z) (c : ascii) :
  c ∉ chars U → shift U key op i c = c.
Proof. intros H. unfold shift. apply index_of_absent in H as ->. reflexivity. Qed.

(** A symbol of the universe is replaced by the universe symbol at the index
    of the specification, computed from first occurrences and the key symbol
    at the absolute message index. *)
Lemma shift_present (U key : string) (op : operation) (i x y : nat) (c k : ascii) :
  String.get (i `mod` String.length key) key = Some k →
  first_occurrence U k x →
  first_occurrence U c y →
  String.get
    (Z.to_nat (spec_index op (Z.of_nat x) (Z.of_nat y) (Z.of_nat (String.length U)))) U
  = Some (shift U key op (Z.of_nat i) c).
Proof.
  intros Hk Hx Hy. unfold shift.
  rewrite (index_of_first U c y Hy).
  destruct (Z.eqb_spec (Z.of_nat y) (-1)); [lia |].
  assert (Hlen : (0 < String.length key)%nat).
  { destruct key; [| cbn; lia]. by destruct (i `mod` 0)%nat. }
  assert (Hsym : symbol_at key (Z.of_nat i `mod` Z.of_nat (String.length key)) c = k).
  { unfold symbol_at. rewrite <- Nat2Z.inj_mod, Nat2Z.id. by rewrite Hk. }
  rewrite Hsym, (index_of_first U k x Hx).
  apply symbol_at_get, spec_index_range.
  apply first_occurrence_lt in Hy. lia.
Qed.

Lemma spec_index_inverse (x y L : Z) :
  0 ≤ x < L → 0 ≤ y < L →
  spec_index Decrypt x (spec_index Encrypt x y L) L = y.
Proof.
  intros Hx Hy. cbn.
  replace ((x + y) `mod` L - x + L) with (y + ((x + y) `mod` L - (x + y)) + 1 * L) by lia.
  rewrite Z.mod_add by lia.
  rewrite (Z.mod_eq (x + y) L) by lia.
  replace (y + (x + y - L * ((x + y) `div` L) - (x + y))) with (y + (- ((x + y) `div` L)) * L) by lia.
  rewrite Z.mod_add by lia. apply Z.mod_small. lia.
Qed.

(** Decrypting what encrypting emitted at the same index gives the symbol
    back, provided the universe writes no symbol twice. *)
Lemma shift_inverse (U key : string) (i : Z) (c : ascii) :
  distinct_symbols U → key ≠ "" → within key U → 0 ≤ i →
  shift U key Decrypt i (shift U key Encrypt i c) = c.
Proof.
  intros Hnd Hne Hin Hi.
  destruct (elem_dec U c) as [Hc | Hc];
    [| by rewrite (shift_absent U key Encrypt i c Hc), shift_absent].
  destruct (index_of_present U c Hc) as (y & Hy & Hfy).
  set (n := Z.of_nat (String.length key)).
  set (L := Z.of_nat (String.length U)).
  assert (HL : 0 ≤ Z.of_nat y < L)
    by (apply first_occurrence_lt in Hfy; unfold L; lia).
  (* the key symbol does not depend on the message symbol *)
  assert (Hkey : ∀ d, ∃ k x, symbol_at key (i `mod` n) d = k
                            ∧ first_occurrence U k x
                            ∧ String.get (Z.to_nat (i `mod` n)) key = Some k).
  { intros d. apply nonempty_length in Hne as Hlen.
    assert (Hr : 0 ≤ i `mod` n < n) by (apply Z.mod_pos_bound; unfold n; lia).
    pose proof (symbol_at_get key _ d Hr) as Hget.
    assert (Hk : symbol_at key (i `mod` n) d ∈ chars U).
    { apply Hin. rewrite get_chars in Hget. by eapply list_elem_of_lookup_2. }
    destruct (index_of_present U _ Hk) as (x & _ & Hfx). eauto. }
  destruct (Hkey c) as (k & x & Hk & Hfx & Hget).
  assert (Hx : 0 ≤ Z.of_nat x < L)
    by (apply first_occurrence_lt in Hfx; unfold L; lia).
  assert (Henc : shift U key Encrypt i c
                 = symbol_at U (spec_index Encrypt (Z.of_nat x) (Z.of_nat y) L) c).
  { unfold shift. rewrite Hy. destruct (Z.eqb_spec (Z.of_nat y) (-1)); [lia |].
    fold n L. by rewrite Hk, (index_of_first U k x Hfx). }
  pose proof (spec_index_range Encrypt (Z.of_nat x) (Z.of_nat y) L ltac:(lia)) as Hr.
  pose proof (symbol_at_get U _ c Hr) as Hget'.
  rewrite <- Henc in Hget'.
  apply (distinct_first_occurrence U _ _ Hnd) in Hget'.
  apply index_of_first in Hget' as Hidx. rewrite Z2Nat.id in Hidx by lia.
  unfold shift at 1. rewrite Hidx.
  destruct (Z.eqb_spec (spec_index Encrypt (Z.of_nat x) (Z.of_nat y) L) (-1)); [lia |].
  fold n L.
  destruct (Hkey (shift U key Encrypt i c)) as (k' & x' & Hk' & Hfx' & Hget2).
  rewrite Hget in Hget2. injection Hget2 as <-.
  rewrite Hk', (index_of_first U k x Hfx).
  rewrite spec_index_inverse by lia.
  destruct Hfy as [Hgy _]. unfold symbol_at. by rewrite Nat2Z.id, Hgy.
Qed.

Lemma transform_inverse (U key : string) (cs : list ascii) (i : Z) :
  distinct_symbols U → key ≠ "" → within key U → 0 ≤ i →
  transform U key Decrypt (transform U key Encrypt cs i) i = cs.
Proof.
  intros Hnd Hne Hin. revert i. induction cs as [|c cs IH]; intros i Hi; [done |].
  cbn [transform]. rewrite shift_inverse by done. by rewrite IH by lia.
Qed.

(** Encrypting keeps symbols of the universe inside it and the others outside. *)
Lemma shift_within (U key : string) (op : operation) (i : Z) (c : ascii) :
  key ≠ "" → within key U → 0 ≤ i →
  c ∈ chars U → shift U key op i c ∈ chars U.
Proof.
  intros Hne Hin Hi Hc.
  destruct (index_of_present U c Hc) as (y & Hy & Hfy).
  unfold shift. rewrite Hy. destruct (Z.eqb_spec (Z.of_nat y) (-1)); [lia |].
  apply first_occurrence_lt in Hfy.
  match goal with |- symbol_at U ?k c ∈ _ =>
    pose proof (symbol_at_get U k c
      ltac:(apply spec_index_range; lia)) as Hget end.
  rewrite get_chars in Hget. by eapply list_elem_of_lookup_2.
Qed.

Lemma transform_within (U key : string) (op : operation) (cs : list ascii) (i : Z) :
  key ≠ "" → within key U → 0 ≤ i →
  cs ⊆ chars U → transform U key op cs i ⊆ chars U.
Proof.
  intros Hne Hin. revert i. induction cs as [|c cs IH]; intros i Hi Hsub x Hx.
  - by apply elem_of_nil in Hx.
  - cbn [transform] in Hx. apply elem_of_cons in Hx as [-> | Hx].
    + apply shift_within; try done. apply Hsub. left.
    + apply (IH (i + 1)); [lia | | done]. intros z Hz. apply Hsub. by right.
Qed.

(** * The two methods on a string universe *)

Lemma method_unfold (op : operation) (e : engine) (options : gmap string jsval)
    (message secret : jsval) :
  method op e options message secret =
    encryptOrDecrypt e options message (resolved options secret) op.
Proof. by destruct op. Qed.

Lemma get_of_list (l : list ascii) (j : nat) :
  String.get j (string_of_list_ascii l) = l !! j.
Proof. by rewrite get_chars, chars_of_list. Qed.

Lemma length_of_list (l : list ascii) :
  String.length (string_of_list_ascii l) = length l.
Proof. by rewrite <- length_chars, chars_of_list. Qed.

(** A call whose inputs pass validation returns the transformed message. *)
Lemma encryptOrDecrypt_string (e : engine) (options : gmap string jsval)
    (U key message : string) (op : operation) :
  charMap e options = Val (JStr U) →
  key ≠ "" → within key U →
  message ≠ "" →
  truthy (get options "strict") = false ∨ within message U →
  encryptOrDecrypt e options (JStr message) (JStr key) op =
    Ok (string_of_list_ascii (transform U key op (chars message) 0)).
Proof.
  intros HU Hne Hin Hm Hs. unfold encryptOrDecrypt, charMap in *. rewrite HU.
  rewrite verifySecret_ok, verifyMessage_ok by done. cbn [bind items].
  fold (chars message). rewrite loop_transform by (done || lia).
  by rewrite append_empty_l.
Qed.

(** A call that returns has passed [verifySecret], and returns the
    transformed message. *)
Lemma encryptOrDecrypt_inv (e : engine) (options : gmap string jsval)
    (U message : string) (secret : jsval) (op : operation) (out : string) :
  charMap e options = Val (JStr U) →
  encryptOrDecrypt e options (JStr message) secret op = Ok out →
  ∃ key, secret = JStr key ∧ key ≠ "" ∧ within key U
         ∧ out = string_of_list_ascii (transform U key op (chars message) 0).
Proof.
  intros HU. unfold encryptOrDecrypt, charMap in *. rewrite HU.
  destruct (verifySecret _ secret) as [[] |] eqn:Hsec; [| done].
  apply verifySecret_inv in Hsec as (key & -> & Hne & Hin).
  destruct (verifyMessage _ _ _) as [[] |]; [| done]. cbn [bind items].
  fold (chars message). rewrite loop_transform by (done || lia).
  rewrite append_empty_l. intros [= <-]. eauto.
Qed.

(** A call with a secret that fails validation throws before anything else. *)
Lemma encryptOrDecrypt_secret_throws (e : engine) (options : gmap string jsval)
    (message secret : jsval) (op : operation) (err : error) :
  verifySecret (charMap e options) secret = Throw err →
  encryptOrDecrypt e options message secret op = Throw err.
Proof. intros H. unfold encryptOrDecrypt, charMap in *. by rewrite H. Qed.

Lemma first_occurrence_index_of (U : string) (c : ascii) (x : nat) :
  index_of U c = Z.of_nat x → first_occurrence U c x.
Proof.
  intros Hx. destruct (elem_dec U c) as [Hin | Hout].
  - destruct (index_of_present U c Hin) as (m & Hm & Hf).
    assert (m = x) as <- by lia. done.
  - apply index_of_absent in Hout. lia.
Qed.

(** * Round trip *)

(** C1 (as amended). On a string universe that writes no symbol twice, with
    a non-empty secret inside the universe and a non-empty message that is
    inside the universe or handled with strict off, [encode] returns a
    cipher text and [decode] of it with the same secret returns the message. *)
Theorem round_trip (e : engine) (options : gmap string jsval)
    (U key message : string) (secret : jsval) :
  charMap e options = Val (JStr U) →
  distinct_symbols U →
  resolved options secret = JStr key →
  key ≠ "" → within key U →
  message ≠ "" →
  truthy (get options "strict") = false ∨ within message U →
  ∃ cipher, encode e options (JStr message) secret = Ok cipher
            ∧ decode e options (JStr cipher) secret = Ok message.
Proof.
  intros HU Hnd Hsec Hne Hin Hm Hs.
  exists (string_of_list_ascii (transform U key Encrypt (chars message) 0)).
  unfold encode, decode. fold (resolved options secret). rewrite Hsec.
  split; [by apply encryptOrDecrypt_string |].
  rewrite (encryptOrDecrypt_string e options U key) ; try done.
  - rewrite chars_of_list, transform_inverse by (done || lia).
    unfold chars. by rewrite string_of_list_ascii_of_string.
  - apply nonempty_length. rewrite length_of_list, transform_length, length_chars.
    by apply nonempty_length.
  - destruct Hs as [Hs | Hs]; [by left | right].
    unfold within. rewrite chars_of_list. apply transform_within; (done || lia).
Qed.

Lemma round_trip_witness :
  ∃ cipher,
    encode builtin_engine lowercase_options (JStr "hello") (JStr "key") = Ok cipher
    ∧ decode builtin_engine lowercase_options (JStr cipher) (JStr "key") = Ok "hello".
Proof.
  apply (round_trip builtin_engine lowercase_options lowercase "key" "hello" (JStr "key")).
  - vm_compute. reflexivity.
  - unfold distinct_symbols. compute_done.
  - reflexivity.
  - discriminate.
  - unfold within. compute_done.
  - discriminate.
  - left. vm_compute. reflexivity.
Defined.

(** C1 (as stated) fails on a custom universe with a repeated symbol: the
    constructor accepts "aba"; the symbol b under key b is sent to index 2,
    an a, whose first occurrence is index 0, so decoding gives a. *)
Lemma round_trip_fails_on_repeated_symbol :
  Vigenere (object [("type", JStr "custom"); ("characters", JStr "aba")])
    = (aba_options, Ok aba_engine)
  ∧ charMap aba_engine aba_options = Val (JStr "aba")
  ∧ encode aba_engine aba_options (JStr "b") (JStr "b") = Ok "a"
  ∧ decode aba_engine aba_options (JStr "a") (JStr "b") = Ok "a"
  ∧ ¬ round_trip_any_universe.
Proof.
  do 4 (split; [vm_compute; reflexivity |]).
  intros H.
  destruct (H (object [("type", JStr "custom"); ("characters", JStr "aba")])
              aba_engine "aba" "b" "b") as (cipher & Henc & Hdec).
  - vm_compute. reflexivity.
  - vm_compute. reflexivity.
  - discriminate.
  - unfold within. compute_done.
  - discriminate.
  - left. vm_compute. reflexivity.
  - vm_compute in Henc. injection Henc as <-.
    vm_compute in Hdec. discriminate.
Qed.

(** No built-in universe writes a symbol twice. *)
Lemma builtin_universes_distinct :
  Forall distinct_symbols
    [alphanumeric; numbers; lowercase; uppercase; symbols; ascii_chars; base64].
Proof. repeat constructor; unfold distinct_symbols; compute_done. Qed.

(** * The emitted symbols *)

(** C2. At a message position [i] whose symbol [m] is in the universe, with
    [k] the secret symbol at [i mod len(secret)], [x] and [y] the first
    positions of [k] and [m] in the universe and [L] its length, [encode]
    returns a string whose symbol at [i] is the universe symbol at
    [(x + y) mod L], and [decode] one whose symbol at [i] is the universe
    symbol at [(y - x + L) mod L]. *)
Theorem emitted_symbol_index (e : engine) (options : gmap string jsval)
    (U key message : string) (secret : jsval) (i x y : nat) (m k : ascii) :
  charMap e options = Val (JStr U) →
  resolved options secret = JStr key →
  within key U →
  truthy (get options "strict") = false ∨ within message U →
  String.get i message = Some m →
  String.get (i `mod` String.length key) key = Some k →
  first_occurrence U k x →
  first_occurrence U m y →
  let L := Z.of_nat (String.length U) in
  (∃ out u, encode e options (JStr message) secret = Ok out
            ∧ String.get i out = Some u
            ∧ String.get (Z.to_nat ((Z.of_nat x + Z.of_nat y) `mod` L)) U = Some u)
  ∧ (∃ out u, decode e options (JStr message) secret = Ok out
              ∧ String.get i out = Some u
              ∧ String.get (Z.to_nat ((Z.of_nat y - Z.of_nat x + L) `mod` L)) U = Some u).
Proof.
  intros HU Hsec Hin Hs Hm Hk Hx Hy L.
  assert (Hne : key ≠ "").
  { intros ->. by destruct (i `mod` 0)%nat. }
  assert (Hmne : message ≠ "") by (intros ->; by destruct i).
  unfold encode, decode. fold (resolved options secret). rewrite Hsec.
  rewrite !(encryptOrDecrypt_string e options U key message) by done.
  split.
  - eexists _, (shift U key Encrypt (Z.of_nat i) m). split; [done |]. split.
    + rewrite get_of_list, transform_lookup. rewrite get_chars in Hm.
      by rewrite Hm.
    + apply (shift_present U key Encrypt i x y m k Hk Hx Hy).
  - eexists _, (shift U key Decrypt (Z.of_nat i) m). split; [done |]. split.
    + rewrite get_of_list, transform_lookup. rewrite get_chars in Hm.
      by rewrite Hm.
    + apply (shift_present U key Decrypt i x y m k Hk Hx Hy).
Qed.

(** Position 2 of "hello" under "key" in the lowercase universe:
    l is at 11, k at 10 and y at 24. *)
Lemma emitted_symbol_index_witness :
  (∃ out u, encode builtin_engine lowercase_options (JStr "hello") (JStr "key") = Ok out
            ∧ String.get 2 out = Some u
            ∧ String.get (Z.to_nat ((24 + 11) `mod` 26)) lowercase = Some u)
  ∧ (∃ out u, decode builtin_engine lowercase_options (JStr "hello") (JStr "key") = Ok out
              ∧ String.get 2 out = Some u
              ∧ String.get (Z.to_nat ((11 - 24 + 26) `mod` 26)) lowercase = Some u).
Proof.
  apply (emitted_symbol_index builtin_engine lowercase_options lowercase "key"
           "hello" (JStr "key") 2 24 11 "l"%char "y"%char).
  - vm_compute. reflexivity.
  - reflexivity.
  - unfold within. compute_done.
  - left. vm_compute. reflexivity.
  - reflexivity.
  - reflexivity.
  - apply first_occurrence_index_of. vm_compute. reflexivity.
  - apply first_occurrence_index_of. vm_compute. reflexivity.
Defined.

(** X26. Over a string universe, with strict off, a call on a non-empty
    string message with a valid secret returns a string in which every
    message symbol outside the universe stands unchanged at its own
    position, and every symbol of the universe is shifted by the secret
    symbol at the absolute message index [i mod len(secret)], whatever was
    passed through before it. *)
Theorem lenient_pass_through (e : engine) (options : gmap string jsval)
    (U key message : string) (secret : jsval) (op : operation) :
  charMap e options = Val (JStr U) →
  resolved options secret = JStr key →
  key ≠ "" → within key U →
  message ≠ "" →
  truthy (get options "strict") = false →
  ∃ out, method op e options (JStr message) secret = Ok out
    ∧ (∀ i c, String.get i message = Some c → c ∉ chars U →
              String.get i out = Some c)
    ∧ (∀ i c k x y,
         String.get i message = Some c →
         String.get (i `mod` String.length key) key = Some k →
         first_occurrence U k x → first_occurrence U c y →
         String.get i out =
           String.get
             (Z.to_nat (spec_index op (Z.of_nat x) (Z.of_nat y)
                          (Z.of_nat (String.length U)))) U).
Proof.
  intros HU Hsec Hne Hin Hm Hs.
  rewrite method_unfold, Hsec.
  rewrite (encryptOrDecrypt_string e options U key message) by auto.
  eexists. split; [done |]. split.
  - intros i c Hc Hout. rewrite get_of_list, transform_lookup.
    rewrite get_chars in Hc. rewrite Hc. cbn. by rewrite shift_absent.
  - intros i c k x y Hc Hk Hx Hy. rewrite get_of_list, transform_lookup.
    rewrite get_chars in Hc. rewrite Hc. cbn.
    by rewrite (shift_present U key op i x y c k Hk Hx Hy).
Qed.

Lemma lenient_pass_through_witness :
  ∃ out, encode builtin_engine lowercase_options (JStr "a!a") (JStr "bc") = Ok out
    ∧ (∀ i c, String.get i "a!a" = Some c → c ∉ chars lowercase →
              String.get i out = Some c)
    ∧ (∀ i c k x y,
         String.get i "a!a" = Some c →
         String.get (i `mod` 2) "bc" = Some k →
         first_occurrence lowercase k x → first_occurrence lowercase c y →
         String.get i out =
           String.get (Z.to_nat ((Z.of_nat x + Z.of_nat y) `mod` 26)) lowercase).
Proof.
  apply (lenient_pass_through builtin_engine lowercase_options lowercase "bc"
           "a!a" (JStr "bc") Encrypt).
  - vm_compute. reflexivity.
  - reflexivity.
  - discriminate.
  - unfold within. compute_done.
  - discriminate.
  - vm_compute. reflexivity.
Defined.

(** The symbol after a passed-through one is shifted by the secret symbol of
    its own index: in "a!a" under "bc" both a's meet b. *)
Lemma pass_through_advances_keystream :
  encode builtin_engine lowercase_options (JStr "a!a") (JStr "bc") = Ok "b!b"
  ∧ decode builtin_engine lowercase_options (JStr "b!b") (JStr "bc") = Ok "a!a".
Proof. split; vm_compute; reflexivity. Qed.

(** * Rejections *)

(** C4. Whatever the message and the strict flag, a call whose resolved
    secret has a symbol outside the universe throws the illegal-secret
    error naming the first such symbol; it returns no string. *)
Theorem illegal_secret_rejected (e : engine) (options : gmap string jsval)
    (U pre post : string) (c : ascii) (message secret : jsval) (op : operation) :
  charMap e options = Val (JStr U) →
  resolved options secret = JStr (pre +:+ String c post) →
  within pre U → c ∉ chars U →
  method op e options message secret =
    Throw (TypeError (IllegalSecretCharacter_msg U (String c ""))).
Proof.
  intros HU Hsec Hpre Hc. rewrite method_unfold, Hsec.
  apply encryptOrDecrypt_secret_throws. rewrite HU.
  by apply verifySecret_bad.
Qed.

Lemma illegal_secret_rejected_witness :
  decode builtin_engine lowercase_options (JStr "hello") (JStr "kEy") =
    Throw (TypeError (IllegalSecretCharacter_msg lowercase "E")).
Proof.
  apply (illegal_secret_rejected builtin_engine lowercase_options lowercase
           "k" "y" "E"%char (JStr "hello") (JStr "kEy") Decrypt).
  - vm_compute. reflexivity.
  - reflexivity.
  - unfold within. compute_done.
  - compute_done.
Defined.

(** C5 (as amended). With strict on and a secret that passes validation, a
    call whose message has a symbol outside the universe throws the
    illegal-message error naming the first such symbol; it returns no
    string. *)
Theorem strict_message_rejected (e : engine) (options : gmap string jsval)
    (U key pre post : string) (c : ascii) (secret : jsval) (op : operation) :
  charMap e options = Val (JStr U) →
  resolved options secret = JStr key →
  key ≠ "" → within key U →
  truthy (get options "strict") = true →
  within pre U → c ∉ chars U →
  method op e options (JStr (pre +:+ String c post)) secret =
    Throw (TypeError (IllegalMessageCharacter_msg U (String c ""))).
Proof.
  intros HU Hsec Hne Hin Hs Hpre Hc. rewrite method_unfold, Hsec.
  unfold encryptOrDecrypt, charMap in *. rewrite HU.
  rewrite verifySecret_ok by done. cbn [bind].
  by rewrite verifyMessage_bad.
Qed.

Lemma strict_message_rejected_witness :
  encode builtin_engine lowercase_strict_options (JStr "hello!") (JStr "key") =
    Throw (TypeError (IllegalMessageCharacter_msg lowercase "!")).
Proof.
  apply (strict_message_rejected builtin_engine lowercase_strict_options
           lowercase "key" "hello" "" "!"%char (JStr "key") Encrypt).
  - vm_compute. reflexivity.
  - reflexivity.
  - discriminate.
  - unfold within. compute_done.
  - vm_compute. reflexivity.
  - unfold within. compute_done.
  - compute_done.
Defined.

(** C5 (as stated) fails when the secret is itself invalid: the secret is
    verified first, so with strict on "hello!" under the secret "Key" is
    rejected for K, and without any secret for the missing secret. *)
Lemma strict_rejection_needs_valid_secret :
  charMap builtin_engine lowercase_strict_options = Val (JStr lowercase)
  ∧ truthy (get lowercase_strict_options "strict") = true
  ∧ encode builtin_engine lowercase_strict_options (JStr "hello!") (JStr "Key")
    = Throw (TypeError (IllegalSecretCharacter_msg lowercase "K"))
  ∧ encode builtin_engine lowercase_strict_options (JStr "hello!") JUndefined
    = Throw (TypeError "Secret must be specified.")
  ∧ ¬ strict_rejection_any_secret.
Proof.
  do 4 (split; [vm_compute; reflexivity |]).
  intros H.
  specialize (H builtin_engine lowercase_strict_options lowercase "hello" ""
                "!"%char (JStr "Key") Encrypt).
  assert (Hrun : method Encrypt builtin_engine lowercase_strict_options
                   (JStr ("hello" +:+ String "!" "")) (JStr "Key")
                 = Throw (TypeError (IllegalSecretCharacter_msg lowercase "K")))
    by (vm_compute; reflexivity).
  rewrite H in Hrun.
  - vm_compute in Hrun. discriminate.
  - vm_compute. reflexivity.
  - vm_compute. reflexivity.
  - unfold within. compute_done.
  - compute_done.
Qed.

(** * Length *)

(** X27. On a string universe, a call on a string message that returns,
    returns a string of the length of the message. *)
Theorem output_length (e : engine) (options : gmap string jsval)
    (U message : string) (secret : jsval) (op : operation) (out : string) :
  charMap e options = Val (JStr U) →
  method op e options (JStr message) secret = Ok out →
  String.length out = String.length message.
Proof.
  intros HU Hrun. rewrite method_unfold in Hrun.
  apply (encryptOrDecrypt_inv e options U) in Hrun as (key & _ & _ & _ & ->);
    [| done].
  by rewrite length_of_list, transform_length, length_chars.
Qed.

Lemma output_length_witness : String.length "r!c" = String.length "h!e".
Proof.
  apply (output_length builtin_engine lowercase_options lowercase "h!e"
           (JStr "key") Encrypt "r!c").
  - vm_compute. reflexivity.
  - vm_compute. reflexivity.
Defined.

(** An array let through as custom characters (see
    [custom_array_characters_accepted]) is a universe whose items need not
    be single symbols: one message symbol can then give three. *)
Lemma array_universe_changes_length :
  Vigenere (object [("type", JStr "custom"); ("characters", array_characters)])
    = (array_options, Ok array_engine)
  ∧ encode array_engine array_options (JStr "b") (JStr "b") = Ok "xyz".
Proof. split; vm_compute; reflexivity. Qed.

(** C3. The constructor lets the array ['a', 'b', 'xyz'] through as custom
    characters (the length test of line 35), and over that universe, with
    strict off, [encode('b!b', 'b')] returns 'xyz!xyz': the passed-through
    '!' of position 1 stands at position 3, and position 1 holds 'y'. *)
Theorem array_universe_moves_pass_through :
  Vigenere (object [("type", JStr "custom"); ("characters", array_characters)])
    = (array_options, Ok array_engine)
  ∧ truthy (get array_options "strict") = false
  ∧ indexOf array_characters (char_val "!") = Ok (-1)
  ∧ String.get 1 "b!b" = Some "!"%char
  ∧ encode array_engine array_options (JStr "b!b") (JStr "b") = Ok "xyz!xyz"
  ∧ String.get 1 "xyz!xyz" = Some "y"%char
  ∧ String.get 3 "xyz!xyz" = Some "!"%char.
Proof. split_and!; vm_compute; reflexivity. Qed.

(** C9. Over the same array universe a call that returns normally returns a
    string longer than its message: [encode('b', 'b')] and
    [decode('a', 'b')] both return 'xyz', three symbols for one. *)
Theorem array_universe_output_longer :
  Vigenere (object [("type", JStr "custom"); ("characters", array_characters)])
    = (array_options, Ok array_engine)
  ∧ encode array_engine array_options (JStr "b") (JStr "b") = Ok "xyz"
  ∧ decode array_engine array_options (JStr "a") (JStr "b") = Ok "xyz"
  ∧ String.length "xyz" ≠ String.length "b".
Proof. split_and!; try (vm_compute; reflexivity). discriminate. Qed.

(** * The scenarios of the specification (section 8) *)

Lemma scenario_lowercase :
  Vigenere (object [("type", JStr "lowercase")]) = (lowercase_options, Ok builtin_engine)
  ∧ encode builtin_engine lowercase_options (JStr "hello") (JStr "key") = Ok "rijvs"
  ∧ decode builtin_engine lowercase_options (JStr "rijvs") (JStr "key") = Ok "hello".
Proof. split_and!; vm_compute; reflexivity. Qed.

Lemma scenario_numbers :
  Vigenere (object [("type", JStr "numbers")]) = (numbers_options, Ok builtin_engine)
  ∧ encode builtin_engine numbers_options (JStr "456") (JStr "123") = Ok "579"
  ∧ decode builtin_engine numbers_options (JStr "579") (JStr "123") = Ok "456".
Proof. split_and!; vm_compute; reflexivity. Qed.

Lemma scenario_strict :
  Vigenere (object [("type", JStr "lowercase"); ("strict", JBool true)])
    = (lowercase_strict_options, Ok builtin_engine)
  ∧ encode builtin_engine lowercase_strict_options (JStr "hello!") (JStr "key")
    = Throw (TypeError (IllegalMessageCharacter_msg lowercase "!")).
Proof. split; vm_compute; reflexivity. Qed.

(** With no [type] the engine works over the base64 universe. *)
Lemma default_kind_base64 :
  charMap builtin_engine (Vigenere ∅).1 = Val (JStr base64)
  ∧ (Vigenere ∅).2 = Ok builtin_engine.
Proof. split; vm_compute; reflexivity. Qed.

(** * More on the constructor (index.js:11-39) *)

(** The kind the constructor works with: [options.type], or the default. *)
Lemma Vigenere_type (options : gmap string jsval) :
  get (Vigenere options).1 "type" =
    if truthy (get options "type") then get options "type" else JStr "base64".
Proof.
  rewrite Vigenere_options. cbv zeta.
  destruct (truthy (get options "type")).
  - by rewrite get_insert_ne.
  - by rewrite get_insert_eq.
Qed.

(** The outcome of the constructor in terms of the caller's fields. *)
Lemma Vigenere_result (options : gmap string jsval) :
  (Vigenere options).2 =
    let ty := if truthy (get options "type") then get options "type"
              else JStr "base64" in
    let characters := get options "characters" in
    let t := characterTypes characters in
    if negb (slot_truthy (lookup_table t ty))
    then Throw (TypeError (InvalidType_msg t))
    else
      do! (if strict_eq ty (JStr "custom") then
             if negb (truthy characters)
             then Throw (TypeError MissingCharacters_msg)
             else
               let! n := get_length characters in
               if falsy_number n
               then Throw (TypeError InvalidCharacterType_msg)
               else Ok tt
           else Ok tt) in
      Ok {| table := t;
            secret_cell := if truthy (get options "secret")
                           then get options "secret" else JNull |}.
Proof.
  unfold Vigenere. cbn [snd]. rewrite (get_insert_ne _ "strict" "type") by done.
  destruct (truthy (get options "type")) eqn:Ht; cbn [negb].
  - by rewrite !get_insert_ne by done.
  - rewrite get_insert_eq. by rewrite !get_insert_ne by done.
Qed.

Lemma Vigenere_table (options : gmap string jsval) (e : engine) :
  (Vigenere options).2 = Ok e → table e = characterTypes (get options "characters").
Proof.
  rewrite Vigenere_result. cbv zeta.
  destruct (negb _); [done |].
  destruct (if strict_eq _ _ then _ else _) as [[] |]; [| done].
  cbn [bind]. by intros [= <-].
Qed.

Lemma strict_eq_custom (v : jsval) :
  strict_eq v (JStr "custom") = true → v = JStr "custom".
Proof.
  destruct v as [| | b | s | l]; try done. cbn.
  by intros ->%String.eqb_eq.
Qed.

(** X1. With [type] absent or falsy the constructor succeeds whatever the
    other fields hold, and the engine works over the base64 universe. *)
Theorem default_kind_is_base64 (options : gmap string jsval) :
  truthy (get options "type") = false →
  ∃ e, (Vigenere options).2 = Ok e
       ∧ charMap e (Vigenere options).1 = Val (JStr base64).
Proof.
  intros Ht. eexists. unfold charMap.
  rewrite Vigenere_type, Vigenere_result, Ht. cbv zeta. cbn. done.
Qed.

Lemma default_kind_is_base64_witness :
  ∃ e, (Vigenere (object [("type", JStr ""); ("characters", JBool true)])).2 = Ok e
       ∧ charMap e (Vigenere (object [("type", JStr ""); ("characters", JBool true)])).1
         = Val (JStr base64).
Proof.
  apply (default_kind_is_base64 (object [("type", JStr ""); ("characters", JBool true)])).
  vm_compute. reflexivity.
Defined.

(** X2. Each of the seven built-in kind names constructs an engine over its
    universe, whatever [characters], [strict] and [secret] hold. *)
Theorem builtin_kind_resolves (options : gmap string jsval) (t U : string) :
  (t, U) ∈ builtin_kinds →
  get options "type" = JStr t →
  ∃ e, (Vigenere options).2 = Ok e
       ∧ charMap e (Vigenere options).1 = Val (JStr U).
Proof.
  intros Hin Ht. eexists. unfold charMap.
  rewrite Vigenere_type, Vigenere_result, Ht. cbv zeta.
  unfold builtin_kinds in Hin.
  repeat (apply elem_of_cons in Hin as [[= -> ->] | Hin]; [cbn; done |]).
  by apply elem_of_nil in Hin.
Qed.

Lemma builtin_kind_resolves_witness :
  ∃ e, (Vigenere (object [("type", JStr "symbols"); ("characters", JNull)])).2 = Ok e
       ∧ charMap e (Vigenere (object [("type", JStr "symbols"); ("characters", JNull)])).1
         = Val (JStr symbols).
Proof.
  apply (builtin_kind_resolves
           (object [("type", JStr "symbols"); ("characters", JNull)]) "symbols" symbols).
  - unfold builtin_kinds. compute_done.
  - vm_compute. reflexivity.
Defined.

(** X3. [type = 'custom'] with a non-empty string of characters constructs
    an engine over exactly that string. *)
Theorem custom_string_resolves (options : gmap string jsval) (U : string) :
  get options "type" = JStr "custom" →
  get options "characters" = JStr U →
  U ≠ "" →
  ∃ e, (Vigenere options).2 = Ok e
       ∧ charMap e (Vigenere options).1 = Val (JStr U).
Proof.
  intros Ht Hc HU. eexists. unfold charMap.
  rewrite Vigenere_type, Vigenere_result, Ht, Hc. cbv zeta.
  assert (Htr : truthy (JStr U) = true) by (by apply truthy_JStr).
  change (truthy (JStr "custom")) with true. cbv iota.
  change (lookup_table (characterTypes (JStr U)) (JStr "custom")) with (Val (JStr U)).
  change (strict_eq (JStr "custom") (JStr "custom")) with true.
  cbn [slot_truthy]. rewrite Htr. cbn [negb get_length bind].
  rewrite falsy_number_length by done. cbn [bind table]. by split.
Qed.

Lemma custom_string_resolves_witness :
  ∃ e, (Vigenere (object [("type", JStr "custom"); ("characters", JStr "xyz")])).2 = Ok e
       ∧ charMap e (Vigenere (object [("type", JStr "custom"); ("characters", JStr "xyz")])).1
         = Val (JStr "xyz").
Proof.
  apply (custom_string_resolves
           (object [("type", JStr "custom"); ("characters", JStr "xyz")]) "xyz").
  - vm_compute. reflexivity.
  - vm_compute. reflexivity.
  - discriminate.
Defined.

Lemma assoc_None (t : list (string * jsval)) (k : string) :
  k ∉ Object_keys t → assoc t k = None.
Proof.
  induction t as [|[k' v] t IH]; [done |]. cbn. intros Hk.
  apply not_elem_of_cons in Hk as [Hne Hk].
  destruct (String.eqb_spec k' k); [congruence | by apply IH].
Qed.

Lemma existsb_eqb_false (k : string) (l : list string) :
  k ∉ l → existsb (String.eqb k) l = false.
Proof.
  induction l as [|a l IH]; [done |]. cbn. intros Hk.
  apply not_elem_of_cons in Hk as [Hne Hk].
  destruct (String.eqb_spec k a); [congruence | by apply IH].
Qed.

(** X4. A non-empty string that is neither one of the eight kind names nor a
    name inherited from [Object.prototype] is rejected, with one fixed
    message that lists the kinds in the order of the table. *)
Theorem unknown_kind_rejected (options : gmap string jsval) (t : string) :
  get options "type" = JStr t →
  t ≠ "" →
  t ∉ Object_keys (characterTypes JUndefined) →
  t ∉ Object_prototype_keys →
  (Vigenere options).2 =
    Throw (TypeError "Invalid character type. Available options are: alphanumeric, numbers, lowercase, uppercase, symbols, ascii, base64, custom;").
Proof.
  intros Ht Hne Hkeys Hproto. rewrite Vigenere_result, Ht. cbv zeta.
  apply truthy_JStr in Hne as ->. unfold lookup_table. cbn [to_string].
  rewrite assoc_None by done. rewrite existsb_eqb_false by done.
  reflexivity.
Qed.

Lemma unknown_kind_rejected_witness :
  (Vigenere (object [("type", JStr "Lowercase"); ("secret", JStr "k")])).2 =
    Throw (TypeError "Invalid character type. Available options are: alphanumeric, numbers, lowercase, uppercase, symbols, ascii, base64, custom;").
Proof.
  apply (unknown_kind_rejected
           (object [("type", JStr "Lowercase"); ("secret", JStr "k")]) "Lowercase").
  - vm_compute. reflexivity.
  - discriminate.
  - compute_done.
  - compute_done.
Defined.

(** X5. The constructor never throws "Characters must be specified when
    using custom character type.": the branch of line 33 is dead, since a
    custom kind with falsy characters has already failed the kind check. *)
Theorem MissingCharacters_never_thrown (options : gmap string jsval) :
  (Vigenere options).2 ≠ Throw (TypeError MissingCharacters_msg).
Proof.
  rewrite Vigenere_result. cbv zeta.
  set (ty := if truthy (get options "type") then _ else _).
  destruct (slot_truthy (lookup_table _ ty)) eqn:Hslot; cbn [negb].
  - destruct (strict_eq ty (JStr "custom")) eqn:Hty; [| done].
    apply strict_eq_custom in Hty. rewrite Hty in Hslot.
    change (truthy (get options "characters") = true) in Hslot.
    rewrite Hslot. cbn [negb].
    destruct (get options "characters") as [| | b | s | l]; try done; cbn.
    + by destruct (Z.of_nat (String.length s) =? 0).
    + by destruct (Z.of_nat (length l) =? 0).
  - unfold InvalidType_msg, MissingCharacters_msg.
    rewrite append_cons. discriminate.
Qed.

(** X6. [type = 'custom'] with characters [true] or an empty array fails
    with "Custom characters must be a non-empty string.": these are the
    truthy values of the fragment whose [length] is falsy. *)
Theorem custom_without_length_rejected (options : gmap string jsval) :
  get options "type" = JStr "custom" →
  get options "characters" = JBool true ∨ get options "characters" = JArr [] →
  (Vigenere options).2 = Throw (TypeError InvalidCharacterType_msg).
Proof.
  intros Ht Hc. rewrite Vigenere_result, Ht. cbv zeta.
  by destruct Hc as [-> | ->].
Qed.

Lemma custom_without_length_rejected_witness :
  (Vigenere (object [("type", JStr "custom"); ("characters", JArr [])])).2 =
    Throw (TypeError InvalidCharacterType_msg).
Proof.
  apply (custom_without_length_rejected
           (object [("type", JStr "custom"); ("characters", JArr [])])).
  - vm_compute. reflexivity.
  - right. vm_compute. reflexivity.
Defined.

Lemma builtin_entry_nonempty (characters : jsval) (k : string) (v : jsval) :
  assoc (characterTypes characters) k = Some v →
  k ≠ "custom" →
  ∃ U, v = JStr U ∧ U ≠ "".
Proof.
  intros Hv Hk. cbn [characterTypes assoc] in Hv.
  repeat match type of Hv with
         | (if String.eqb ?a k then _ else _) = _ =>
             destruct (String.eqb_spec a k);
             [first [congruence | injection Hv as <-; eexists; by split] |]
         end.
  done.
Qed.

(** X7. When construction succeeds with [type] absent, falsy or a string,
    the universe of the engine is never empty: it is a non-empty string, a
    non-empty array (custom characters given as an array), or an object
    inherited from [Object.prototype]. *)
Theorem constructed_universe_nonempty (options : gmap string jsval) (e : engine) :
  (truthy (get options "type") = false ∨ ∃ t, get options "type" = JStr t) →
  (Vigenere options).2 = Ok e →
  nonempty_universe (charMap e (Vigenere options).1).
Proof.
  intros Hty Hok. unfold charMap.
  rewrite (Vigenere_table options e Hok), Vigenere_type.
  rewrite Vigenere_result in Hok. cbv zeta in Hok.
  set (ty := if truthy (get options "type") then _ else _) in *.
  assert (∃ t, ty = JStr t) as [t Ht].
  { unfold ty. destruct Hty as [-> | [t Ht]]; [by eexists |].
    rewrite Ht. destruct (truthy (JStr t)); by eexists. }
  rewrite Ht in *. clear ty Ht Hty.
  destruct (slot_truthy _) eqn:Hslot; [cbn [negb] in Hok | done].
  destruct (String.eqb_spec t "custom") as [-> | Hne].
  - change (lookup_table _ (JStr "custom")) with (Val (get options "characters")) in *.
    change (strict_eq (JStr "custom") (JStr "custom")) with true in Hok.
    cbn [slot_truthy] in Hslot. rewrite Hslot in Hok. cbn [negb] in Hok.
    destruct (get options "characters") as [| | b | s | l]; try done; cbn in *.
    + by destruct (String.eqb_spec s "").
    + by destruct l.
  - unfold lookup_table in *. cbn [to_string] in *.
    destruct (assoc _ t) as [v |] eqn:Hv.
    + by destruct (builtin_entry_nonempty _ _ _ Hv Hne) as (U & -> & HU).
    + by destruct (existsb _ _).
Qed.

Lemma constructed_universe_nonempty_witness :
  nonempty_universe
    (charMap array_engine
       (Vigenere (object [("type", JStr "custom"); ("characters", array_characters)])).1).
Proof.
  apply (constructed_universe_nonempty
           (object [("type", JStr "custom"); ("characters", array_characters)])
           array_engine).
  - right. exists "custom". vm_compute. reflexivity.
  - vm_compute. reflexivity.
Defined.

(** * More on the calls (index.js:42-122) *)

(** X8. A call whose resolved secret is falsy (no argument and no
    [options.secret], null, the empty string, false) throws "Secret must be
    specified.", whatever the universe, the message and the strict flag. *)
Theorem missing_secret_rejected (e : engine) (options : gmap string jsval)
    (message secret : jsval) (op : operation) :
  truthy (resolved options secret) = false →
  method op e options message secret = Throw (TypeError "Secret must be specified.").
Proof.
  intros Hs. rewrite method_unfold. unfold encryptOrDecrypt, verifySecret.
  by rewrite Hs.
Qed.

Lemma missing_secret_rejected_witness :
  decode builtin_engine lowercase_options (JStr "hello") JUndefined =
    Throw (TypeError "Secret must be specified.").
Proof.
  apply (missing_secret_rejected builtin_engine lowercase_options (JStr "hello")
           JUndefined Decrypt).
  vm_compute. reflexivity.
Defined.

(** X9. With a secret that passes validation, a falsy message (absent, null,
    false, and also the empty string) is rejected with "Message must be
    specified."; the empty string never reaches the non-empty check. *)
Theorem empty_message_rejected (e : engine) (options : gmap string jsval)
    (U key : string) (message secret : jsval) (op : operation) :
  charMap e options = Val (JStr U) →
  resolved options secret = JStr key →
  key ≠ "" → within key U →
  truthy message = false →
  method op e options message secret = Throw (TypeError "Message must be specified.").
Proof.
  intros HU Hsec Hne Hin Hm. rewrite method_unfold, Hsec.
  unfold encryptOrDecrypt, charMap in *. rewrite HU.
  rewrite verifySecret_ok by done. cbn [bind]. unfold verifyMessage.
  by rewrite Hm.
Qed.

Lemma empty_message_rejected_witness :
  encode builtin_engine lowercase_options (JStr "") (JStr "key") =
    Throw (TypeError "Message must be specified.").
Proof.
  apply (empty_message_rejected builtin_engine lowercase_options lowercase "key"
           (JStr "") (JStr "key") Encrypt).
  - vm_compute. reflexivity.
  - reflexivity.
  - discriminate.
  - unfold within. compute_done.
  - reflexivity.
Defined.

(** X10. Over a string universe a call returns a string only if its
    resolved secret is a non-empty string all of whose symbols are in the
    universe, whatever the message is. *)
Theorem returned_secret_valid (e : engine) (options : gmap string jsval)
    (U : string) (message secret : jsval) (op : operation) (out : string) :
  charMap e options = Val (JStr U) →
  method op e options message secret = Ok out →
  ∃ key, resolved options secret = JStr key ∧ key ≠ "" ∧ within key U.
Proof.
  intros HU. rewrite method_unfold. unfold encryptOrDecrypt, charMap in *.
  rewrite HU.
  destruct (verifySecret _ _) as [[] |] eqn:Hsec; [| done].
  intros _. by apply verifySecret_inv.
Qed.

Lemma returned_secret_valid_witness :
  ∃ key, resolved lowercase_options (JStr "key") = JStr key
         ∧ key ≠ "" ∧ within key lowercase.
Proof.
  apply (returned_secret_valid builtin_engine lowercase_options lowercase
           (JStr "hello") (JStr "key") Encrypt "rijvs").
  - vm_compute. reflexivity.
  - vm_compute. reflexivity.
Defined.

Lemma verifyMessage_inv (U message : string) (strict : jsval) :
  verifyMessage (Val (JStr U)) (JStr message) strict = Ok tt →
  message ≠ "" ∧ (truthy strict = true → within message U).
Proof.
  destruct (String.eqb_spec message "") as [-> | Hne]; [done |].
  rewrite verifyMessage_string by done. intros Hv. split; [done |].
  intros Hs. rewrite Hs in Hv.
  destruct (every _ _) as [b |] eqn:Hev; [| done].
  by eapply every_check_inv.
Qed.

(** X11. With strict on, a call on a string message returns only if the
    message is non-empty and every one of its symbols is in the universe. *)
Theorem strict_result_message_within (e : engine) (options : gmap string jsval)
    (U message : string) (secret : jsval) (op : operation) (out : string) :
  charMap e options = Val (JStr U) →
  truthy (get options "strict") = true →
  method op e options (JStr message) secret = Ok out →
  message ≠ "" ∧ within message U.
Proof.
  intros HU Hs. rewrite method_unfold. unfold encryptOrDecrypt, charMap in *.
  rewrite HU.
  destruct (verifySecret _ _) as [[] |]; [| done]. cbn [bind].
  destruct (verifyMessage _ _ _) as [[] |] eqn:Hv; [| done].
  intros _. apply verifyMessage_inv in Hv as [Hne Hin]. auto.
Qed.

Lemma strict_result_message_within_witness :
  "hello" ≠ "" ∧ within "hello" lowercase.
Proof.
  apply (strict_result_message_within builtin_engine lowercase_strict_options
           lowercase "hello" (JStr "key") Encrypt "rijvs").
  - vm_compute. reflexivity.
  - vm_compute. reflexivity.
  - vm_compute. reflexivity.
Defined.



(** * Algebra of the shift *)


(** The secret symbol met at index [i], and its first position. *)
Lemma key_first_occurrence (U key : string) (i : Z) (d : ascii) :
  key ≠ "" → within key U → 0 ≤ i →
  ∃ k x, symbol_at key (i `mod` Z.of_nat (String.length key)) d = k
         ∧ k ∈ chars key
         ∧ first_occurrence U k x.
Proof.
  intros Hne Hin Hi. apply nonempty_length in Hne as Hlen.
  set (n := Z.of_nat (String.length key)).
  assert (Hr : 0 ≤ i `mod` n < n) by (apply Z.mod_pos_bound; unfold n; lia).
  pose proof (symbol_at_get key _ d Hr) as Hget.
  rewrite get_chars in Hget. apply list_elem_of_lookup_2 in Hget.
  destruct (index_of_present U _ (Hin _ Hget)) as (x & _ & Hfx). eauto.
Qed.


(** What [shift] does to a symbol of the universe, in terms of first
    positions. *)
Lemma shift_in_universe (U key : string) (op : operation) (i : Z) (c : ascii) :
  key ≠ "" → within key U → 0 ≤ i → c ∈ chars U →
  ∃ k x y,
    symbol_at key (i `mod` Z.of_nat (String.length key)) c = k
    ∧ first_occurrence U k x ∧ first_occurrence U c y
    ∧ shift U key op i c =
        symbol_at U (spec_index op (Z.of_nat x) (Z.of_nat y)
                       (Z.of_nat (String.length U))) c.
Proof.
  intros Hne Hin Hi Hc.
  destruct (key_first_occurrence U key i c Hne Hin Hi) as (k & x & Hk & _ & Hfx).
  destruct (index_of_present U c Hc) as (y & Hy & Hfy).
  exists k, x, y. split_and!; try done.
  unfold shift. rewrite Hy. destruct (Z.eqb_spec (Z.of_nat y) (-1)); [lia |].
  by rewrite Hk, (index_of_first U k x Hfx).
Qed.





(** * Particular secrets *)

Lemma spec_index_zero (op : operation) (y L : Z) :
  0 ≤ y < L → spec_index op 0 y L = y.
Proof.
  intros Hy. destruct op; unfold spec_index.
  - replace (0 + y) with y by lia. apply Z.mod_small. lia.
  - replace (y - 0 + L) with (y + 1 * L) by lia.
    rewrite Z.mod_add by lia. apply Z.mod_small. lia.
Qed.

Lemma shift_identity (U key : string) (op : operation) (i : Z) (c u0 : ascii) :
  String.get 0 U = Some u0 →
  key ≠ "" → (∀ k, k ∈ chars key → k = u0) → 0 ≤ i →
  shift U key op i c = c.
Proof.
  intros H0 Hne Hall Hi.
  destruct (elem_dec U c) as [Hc | Hc]; [| by apply shift_absent].
  assert (Hf0 : first_occurrence U u0 0) by (split; [done | intros j Hj; lia]).
  assert (Hin : within key U).
  { intros k Hk. rewrite (Hall k Hk). by eapply first_occurrence_elem. }
  destruct (shift_in_universe U key op i c Hne Hin Hi Hc)
    as (k & x & y & Hk & Hfx & Hfy & ->).
  destruct (key_first_occurrence U key i c Hne Hin Hi) as (k' & _ & Hk' & Hkin & _).
  rewrite Hk in Hk'. subst k'. rewrite (Hall k Hkin) in Hfx.
  rewrite (first_occurrence_unique _ _ _ _ Hfx Hf0).
  apply first_occurrence_lt in Hfy as Hlt. destruct Hfy as [Hgy _].
  rewrite (spec_index_zero op (Z.of_nat y)) by lia. unfold symbol_at. by rewrite Nat2Z.id, Hgy.
Qed.

Lemma transform_identity (U key : string) (op : operation) (cs : list ascii)
    (i : Z) (u0 : ascii) :
  String.get 0 U = Some u0 →
  key ≠ "" → (∀ k, k ∈ chars key → k = u0) → 0 ≤ i →
  transform U key op cs i = cs.
Proof.
  intros H0 Hne Hall. revert i. induction cs as [|c cs IH]; intros i Hi; [done |].
  cbn [transform]. rewrite (shift_identity U key op i c u0) by done.
  by rewrite IH by lia.
Qed.

(** X14. A secret made only of the first symbol of the universe changes
    nothing: both methods return the message itself. *)
Theorem first_symbol_secret_is_identity (e : engine) (options : gmap string jsval)
    (U key message : string) (u0 : ascii) (secret : jsval) (op : operation) :
  charMap e options = Val (JStr U) →
  String.get 0 U = Some u0 →
  resolved options secret = JStr key →
  key ≠ "" → (∀ k, k ∈ chars key → k = u0) →
  message ≠ "" →
  truthy (get options "strict") = false ∨ within message U →
  method op e options (JStr message) secret = Ok message.
Proof.
  intros HU H0 Hsec Hne Hall Hm Hs. rewrite method_unfold, Hsec.
  assert (Hin : within key U).
  { intros k Hk. rewrite (Hall k Hk). rewrite get_chars in H0.
    by eapply list_elem_of_lookup_2. }
  rewrite (encryptOrDecrypt_string e options U key message) by done.
  rewrite (transform_identity U key op _ 0 u0) by (done || lia).
  unfold chars. by rewrite string_of_list_ascii_of_string.
Qed.

Lemma first_symbol_secret_is_identity_witness :
  encode builtin_engine lowercase_options (JStr "hello, world") (JStr "aaa")
  = Ok "hello, world".
Proof.
  apply (first_symbol_secret_is_identity builtin_engine lowercase_options
           lowercase "aaa" "hello, world" "a"%char (JStr "aaa") Encrypt).
  - vm_compute. reflexivity.
  - reflexivity.
  - reflexivity.
  - discriminate.
  - intros k Hk. unfold chars in Hk. cbn in Hk.
    repeat (apply elem_of_cons in Hk as [-> | Hk]; [reflexivity |]).
    by apply elem_of_nil in Hk.
  - discriminate.
  - left. vm_compute. reflexivity.
Defined.

Lemma length_append (s t : string) :
  String.length (s +:+ t) = (String.length s + String.length t)%nat.
Proof. by rewrite <- !length_chars, chars_append, length_app. Qed.

Lemma symbol_at_double (key : string) (i : Z) (d : ascii) :
  key ≠ "" → 0 ≤ i →
  symbol_at (key +:+ key) (i `mod` Z.of_nat (String.length (key +:+ key))) d
  = symbol_at key (i `mod` Z.of_nat (String.length key)) d.
Proof.
  intros Hne%nonempty_length Hi. rewrite length_append.
  set (n := String.length key) in *.
  set (r := i `mod` Z.of_nat (n + n)).
  assert (Hr : 0 ≤ r < Z.of_nat (n + n)) by (apply Z.mod_pos_bound; lia).
  assert (Hmod : i `mod` Z.of_nat n = r `mod` Z.of_nat n).
  { unfold r. symmetry. apply Z.mod_mod_divide. exists 2. lia. }
  rewrite Hmod. unfold symbol_at. rewrite !get_chars, chars_append.
  destruct (Z.lt_ge_cases r (Z.of_nat n)) as [Hlt | Hge].
  - rewrite Z.mod_small by lia.
    rewrite lookup_app_l; [done |]. rewrite length_chars. fold n. lia.
  - replace (r `mod` Z.of_nat n) with (r - Z.of_nat n).
    + rewrite lookup_app_r by (rewrite length_chars; fold n; lia).
      rewrite length_chars. fold n.
      by replace (Z.to_nat r - n)%nat with (Z.to_nat (r - Z.of_nat n)) by lia.
    + replace r with ((r - Z.of_nat n) + 1 * Z.of_nat n) at 2 by lia.
      rewrite Z.mod_add by lia. symmetry. apply Z.mod_small. lia.
Qed.

Lemma transform_double (U key : string) (op : operation) (cs : list ascii) (i : Z) :
  key ≠ "" → 0 ≤ i →
  transform U (key +:+ key) op cs i = transform U key op cs i.
Proof.
  intros Hne. revert i. induction cs as [|c cs IH]; intros i Hi; [done |].
  cbn [transform]. rewrite IH by lia. f_equal.
  unfold shift. by rewrite symbol_at_double.
Qed.

(** X15. The keystream repeats: a secret and the same secret written twice
    give the same result. *)
Theorem doubled_secret_same_result (e : engine) (options : gmap string jsval)
    (U key message : string) (op : operation) :
  charMap e options = Val (JStr U) →
  key ≠ "" → within key U →
  message ≠ "" →
  truthy (get options "strict") = false ∨ within message U →
  ∃ out, method op e options (JStr message) (JStr key) = Ok out
         ∧ method op e options (JStr message) (JStr (key +:+ key)) = Ok out.
Proof.
  intros HU Hne Hin Hm Hs. eexists. rewrite !method_unfold.
  change (resolved options (JStr key)) with (JStr key).
  change (resolved options (JStr (key +:+ key))) with (JStr (key +:+ key)).
  rewrite (encryptOrDecrypt_string e options U key message) by done.
  rewrite (encryptOrDecrypt_string e options U (key +:+ key) message); try done.
  - by rewrite transform_double by (done || lia).
  - apply nonempty_length. rewrite length_append.
    apply nonempty_length in Hne. lia.
  - by apply within_append.
Qed.

Lemma doubled_secret_same_result_witness :
  ∃ out, encode builtin_engine lowercase_options (JStr "hello") (JStr "key") = Ok out
         ∧ encode builtin_engine lowercase_options (JStr "hello") (JStr "keykey") = Ok out.
Proof.
  apply (doubled_secret_same_result builtin_engine lowercase_options lowercase
           "key" "hello" Encrypt).
  - vm_compute. reflexivity.
  - discriminate.
  - unfold within. compute_done.
  - discriminate.
  - left. vm_compute. reflexivity.
Defined.

(** * Messages in pieces *)

Lemma shift_congruent (U key : string) (op : operation) (i j : Z) (c : ascii) :
  i `mod` Z.of_nat (String.length key) = j `mod` Z.of_nat (String.length key) →
  shift U key op i c = shift U key op j c.
Proof. intros H. unfold shift. by rewrite H. Qed.

Lemma transform_congruent (U key : string) (op : operation) (cs : list ascii)
    (i j : Z) :
  i `mod` Z.of_nat (String.length key) = j `mod` Z.of_nat (String.length key) →
  transform U key op cs i = transform U key op cs j.
Proof.
  revert i j. induction cs as [|c cs IH]; intros i j H; [done |].
  cbn [transform]. rewrite (shift_congruent U key op i j c H). f_equal.
  apply IH. by rewrite <- (Zplus_mod_idemp_l i), H, Zplus_mod_idemp_l.
Qed.

Lemma transform_app (U key : string) (op : operation) (l1 l2 : list ascii) (i : Z) :
  transform U key op (l1 ++ l2) i =
    transform U key op l1 i ++ transform U key op l2 (i + Z.of_nat (length l1)).
Proof.
  revert i. induction l1 as [|c l1 IH]; intros i.
  - cbn. by rewrite Z.add_0_r.
  - cbn [app transform length]. rewrite IH. do 3 f_equal. lia.
Qed.

Lemma string_of_list_app (l1 l2 : list ascii) :
  string_of_list_ascii (l1 ++ l2) =
    string_of_list_ascii l1 +:+ string_of_list_ascii l2.
Proof.
  induction l1 as [|c l1 IH]; [done |]. cbn [app string_of_list_ascii].
  by rewrite append_cons, IH.
Qed.

(** X16. A message can be handled in pieces cut at a multiple of the secret
    length: when the length of the first piece is a multiple of the length
    of the secret, the result of the whole is the result of the first piece
    followed by the result of the second. *)
Theorem pieces_at_secret_multiple (e : engine) (options : gmap string jsval)
    (U key m1 m2 : string) (secret : jsval) (op : operation) :
  charMap e options = Val (JStr U) →
  resolved options secret = JStr key →
  key ≠ "" → within key U →
  m1 ≠ "" → m2 ≠ "" →
  (String.length m1 `mod` String.length key = 0)%nat →
  truthy (get options "strict") = false ∨ (within m1 U ∧ within m2 U) →
  ∃ o1 o2, method op e options (JStr m1) secret = Ok o1
           ∧ method op e options (JStr m2) secret = Ok o2
           ∧ method op e options (JStr (m1 +:+ m2)) secret = Ok (o1 +:+ o2).
Proof.
  intros HU Hsec Hne Hin H1 H2 Hmul Hs. do 2 eexists.
  rewrite !method_unfold, Hsec.
  rewrite (encryptOrDecrypt_string e options U key m1);
    [| done | done | done | done | destruct Hs as [? | [? ?]]; auto].
  rewrite (encryptOrDecrypt_string e options U key m2);
    [| done | done | done | done | destruct Hs as [? | [? ?]]; auto].
  rewrite (encryptOrDecrypt_string e options U key (m1 +:+ m2)); try done.
  - split_and!; try done. f_equal.
    rewrite chars_append, transform_app, string_of_list_app. do 2 f_equal.
    apply transform_congruent. rewrite length_chars, Z.add_0_l.
    by rewrite <- Nat2Z.inj_mod, Hmul.
  - apply nonempty_length. rewrite length_append.
    apply nonempty_length in H1. lia.
  - destruct Hs as [? | [? ?]]; [by left | right]. by apply within_append.
Qed.

Lemma pieces_at_secret_multiple_witness :
  ∃ o1 o2, encode builtin_engine lowercase_options (JStr "attack") (JStr "key") = Ok o1
           ∧ encode builtin_engine lowercase_options (JStr " at dawn") (JStr "key") = Ok o2
           ∧ encode builtin_engine lowercase_options
               (JStr ("attack" +:+ " at dawn")) (JStr "key") = Ok (o1 +:+ o2).
Proof.
  apply (pieces_at_secret_multiple builtin_engine lowercase_options lowercase
           "key" "attack" " at dawn" (JStr "key") Encrypt).
  - vm_compute. reflexivity.
  - reflexivity.
  - discriminate.
  - unfold within. compute_done.
  - discriminate.
  - discriminate.
  - reflexivity.
  - left. vm_compute. reflexivity.
Defined.

(** * What the methods read from the options object *)

(** X17. For a message all of whose symbols are in the universe the strict
    flag makes no difference: setting [options.strict] to any value leaves
    the outcome of the call, result or error, as it was. *)
Theorem strict_flag_irrelevant_within (e : engine) (options : gmap string jsval)
    (U message : string) (secret flag : jsval) (op : operation) :
  charMap e options = Val (JStr U) →
  within message U →
  method op e (<["strict" := flag]> options) (JStr message) secret =
    method op e options (JStr message) secret.
Proof.
  intros HU Hin. rewrite !method_unfold. unfold resolved, encryptOrDecrypt, charMap in *.
  rewrite !get_insert_ne by done. rewrite get_insert_eq, HU.
  destruct (verifySecret _ _) as [[] |]; [| done]. cbn [bind].
  destruct (String.eqb_spec message "") as [-> | Hne]; [done |].
  by rewrite !verifyMessage_ok by auto.
Qed.

Lemma strict_flag_irrelevant_within_witness :
  encode builtin_engine (<["strict" := JBool true]> lowercase_options)
    (JStr "hello") (JStr "key")
  = encode builtin_engine lowercase_options (JStr "hello") (JStr "key").
Proof.
  apply (strict_flag_irrelevant_within builtin_engine lowercase_options
           lowercase "hello" (JStr "key") (JBool true) Encrypt).
  - vm_compute. reflexivity.
  - unfold within. compute_done.
Defined.

(** X18. The default secret is read from the options object at the time of
    the call: after the caller sets [options.secret], a call without a
    secret argument behaves as a call with that secret, and the cell filled
    from [options.secret] at construction plays no part. *)
Theorem default_secret_read_at_call (e : engine) (options : gmap string jsval)
    (key : string) (message cell : jsval) (op : operation) :
  method op e (<["secret" := JStr key]> options) message JUndefined =
    method op e options message (JStr key)
  ∧ method op {| table := table e; secret_cell := cell |} options message JUndefined =
      method op e options message JUndefined.
Proof.
  split; [| by destruct op].
  rewrite !method_unfold. unfold resolved, encryptOrDecrypt.
  cbn [default_arg]. rewrite get_insert_eq. by rewrite !get_insert_ne by done.
Qed.

(** X19. An engine whose kind is a name inherited from [Object.prototype]
    never returns a string: every call throws, whatever message and secret
    it is given. *)
Theorem inherited_kind_never_returns (e : engine) (options : gmap string jsval)
    (name : string) (message secret : jsval) (op : operation) :
  charMap e options = Builtin name →
  ∃ err, method op e options message secret = Throw err.
Proof.
  intros HU. rewrite method_unfold. unfold encryptOrDecrypt, charMap in *.
  rewrite HU. generalize (resolved options secret). intros s.
  assert (∃ err, verifySecret (Builtin name) s = Throw err) as [err ->];
    [| by eexists].
  unfold verifySecret. destruct s as [| | [] | k | l]; try (by eexists).
  - destruct k as [|c k]; [by eexists |]. cbn. by eexists.
  - cbn. destruct (Z.of_nat (length l) =? 0); by eexists.
Qed.

Lemma inherited_kind_never_returns_witness :
  ∃ err,
    encode builtin_engine (Vigenere (object [("type", JStr "toString")])).1
      (JStr "hello") (JStr "key") = Throw err.
Proof.
  apply (inherited_kind_never_returns builtin_engine
           (Vigenere (object [("type", JStr "toString")])).1 "toString"
           (JStr "hello") (JStr "key") Encrypt).
  vm_compute. reflexivity.
Defined.

(** * The copy in the test file (index.spec.js:43-176) *)

Lemma SpecCopy_custom_falsy_characters_witness :
  (SpecCopy.Vigenere (object [("type", JStr "custom"); ("characters", JBool false)])).2
  = Throw (TypeError MissingCharacters_msg).
Proof.
  apply (SpecCopy_custom_falsy_characters
           (object [("type", JStr "custom"); ("characters", JBool false)])).
  - vm_compute. reflexivity.
  - vm_compute. reflexivity.
Defined.

Lemma SpecCopy_custom_not_a_string_witness :
  (SpecCopy.Vigenere (object [("type", JStr "custom"); ("characters", JBool true)])).2
  = Throw (TypeError InvalidCharacterType_msg).
Proof.
  apply (SpecCopy_custom_not_a_string
           (object [("type", JStr "custom"); ("characters", JBool true)])).
  - vm_compute. reflexivity.
  - vm_compute. reflexivity.
  - vm_compute. reflexivity.
Defined.

(** X22. In the copy the custom characters never become the universe: with
    [type = 'custom'] and a non-empty string of characters construction
    succeeds, and the engine works over the placeholder "CUSTOM_TYPE". *)
Theorem SpecCopy_custom_universe_is_placeholder (options : gmap string jsval)
    (U : string) :
  get options "type" = JStr "custom" →
  get options "characters" = JStr U →
  U ≠ "" →
  ∃ e, (SpecCopy.Vigenere options).2 = Ok e
       ∧ charMap e (SpecCopy.Vigenere options).1 = Val (JStr "CUSTOM_TYPE")
       ∧ get (SpecCopy.Vigenere options).1 "characters" = JStr U.
Proof.
  intros Ht Hc HU. unfold SpecCopy.Vigenere, charMap.
  rewrite get_insert_ne by done. rewrite Ht.
  change (truthy (JStr "custom")) with true. cbn [negb].
  rewrite !get_insert_ne by done. rewrite Ht, Hc.
  apply truthy_JStr in HU as Htr.
  change (lookup_table SpecCopy.characterTypes (JStr "custom"))
    with (Val (JStr "CUSTOM_TYPE")).
  change (strict_eq (JStr "custom") (JStr "custom")) with true.
  cbn [slot_truthy SpecCopy.not_a_string]. rewrite Htr.
  change (truthy (JStr "CUSTOM_TYPE")) with true. cbn [negb fst snd to_string].
  eexists. split; [done |]. cbn [table].
  rewrite get_insert_eq. rewrite !get_insert_ne by done. by rewrite Ht.
Qed.

Lemma SpecCopy_custom_universe_is_placeholder_witness :
  ∃ e, (SpecCopy.Vigenere (object [("type", JStr "custom"); ("characters", JStr "xyz")])).2
       = Ok e
       ∧ charMap e
           (SpecCopy.Vigenere (object [("type", JStr "custom"); ("characters", JStr "xyz")])).1
         = Val (JStr "CUSTOM_TYPE")
       ∧ get (SpecCopy.Vigenere (object [("type", JStr "custom"); ("characters", JStr "xyz")])).1
           "characters" = JStr "xyz".
Proof.
  apply (SpecCopy_custom_universe_is_placeholder
           (object [("type", JStr "custom"); ("characters", JStr "xyz")]) "xyz").
  - vm_compute. reflexivity.
  - vm_compute. reflexivity.
  - discriminate.
Defined.

Lemma SpecCopy_verifySecret_throws (charMap : slot) (secret : jsval) :
  ∃ err, SpecCopy.verifySecret charMap secret = Throw err.
Proof.
  unfold SpecCopy.verifySecret.
  destruct secret as [| | [] | k | l]; try (by eexists).
  - destruct (truthy (JStr k)); cbn; [| by eexists].
    destruct (Z.of_nat (String.length k) =? 0); by eexists.
  - cbn. destruct (Z.of_nat (length l) =? 0); by eexists.
Qed.

(** X23. In the copy neither method ever returns a string: [verifySecret]
    reads [secret.value] of its own parameter, which no string, boolean or
    array has, so every secret that gets that far is rejected. *)
Theorem SpecCopy_methods_never_return (e : engine) (options : gmap string jsval)
    (message secret : jsval) :
  (∃ err, SpecCopy.encode e options message secret = Throw err)
  ∧ (∃ err, SpecCopy.decode e options message secret = Throw err).
Proof.
  unfold SpecCopy.encode, SpecCopy.decode, SpecCopy.encryptOrDecrypt.
  destruct (SpecCopy_verifySecret_throws
              (lookup_table (table e) (get options "type"))
              (default_arg secret (get options "secret"))) as [err ->].
  split; by eexists.
Qed.

(** X24. In the copy a non-empty string secret, valid or not, is rejected
    with "Secret key characters must be string type.". *)
Theorem SpecCopy_string_secret_rejected (e : engine) (options : gmap string jsval)
    (key : string) (message secret : jsval) :
  default_arg secret (get options "secret") = JStr key →
  key ≠ "" →
  SpecCopy.encode e options message secret =
    Throw (TypeError "Secret key characters must be string type.")
  ∧ SpecCopy.decode e options message secret =
      Throw (TypeError "Secret key characters must be string type.").
Proof.
  intros Hs Hne. unfold SpecCopy.encode, SpecCopy.decode, SpecCopy.encryptOrDecrypt.
  rewrite Hs. unfold SpecCopy.verifySecret.
  apply truthy_JStr in Hne as Ht. rewrite Ht. cbn [negb get_length bind].
  rewrite falsy_number_length by (by apply truthy_JStr). by split.
Qed.

Lemma SpecCopy_string_secret_rejected_witness :
  SpecCopy.encode builtin_engine lowercase_options (JStr "hello") (JStr "key") =
    Throw (TypeError "Secret key characters must be string type.")
  ∧ SpecCopy.decode builtin_engine lowercase_options (JStr "hello") (JStr "key") =
      Throw (TypeError "Secret key characters must be string type.").
Proof.
  apply (SpecCopy_string_secret_rejected builtin_engine lowercase_options "key"
           (JStr "hello") (JStr "key")).
  - reflexivity.
  - discriminate.
Defined.

(** X25. In the copy a non-empty string that is neither one of the eight
    kind names nor a name inherited from [Object.prototype] is rejected with
    the message the test expects. *)
Theorem SpecCopy_unknown_kind_rejected (options : gmap string jsval) (t : string) :
  get options "type" = JStr t →
  t ≠ "" →
  t ∉ Object_keys SpecCopy.characterTypes →
  t ∉ Object_prototype_keys →
  (SpecCopy.Vigenere options).2 = Throw (TypeError expected_InvalidType_msg).
Proof.
  intros Ht Hne Hkeys Hproto. unfold SpecCopy.Vigenere.
  rewrite get_insert_ne by done. rewrite Ht.
  apply truthy_JStr in Hne as ->. cbn [negb].
  rewrite !get_insert_ne by done. rewrite Ht.
  unfold lookup_table. cbn [to_string].
  rewrite assoc_None by done. rewrite existsb_eqb_false by done.
  reflexivity.
Qed.

Lemma SpecCopy_unknown_kind_rejected_witness :
  (SpecCopy.Vigenere options_invalid).2 = Throw (TypeError expected_InvalidType_msg).
Proof.
  apply (SpecCopy_unknown_kind_rejected options_invalid "invalid").
  - vm_compute. reflexivity.
  - discriminate.
  - compute_done.
  - compute_done.
Defined.
